(** * MDGT-RUTUBE-SAVER: the download queue of [Parser.py]

    A shallow embedding of the queue scheduler of [Parser.py]: the
    executor [DownloadWorker.run], the slots of [MainWindow] that consume
    its signals, and the user actions that add, remove, start, stop and
    reset.  Python objects are records, the list widget is a list of
    items, exceptions are an explicit result type, and the objects of Qt
    and of the operating system that the program talks to (thread pool,
    progress bar, file system) are small state machines written from
    their documentation. *)

From Stdlib Require Import ZArith List Ascii String Lia.
From stdpp Require Import base decidable option list strings pretty gmap relations.

Local Open Scope Z_scope.

(** ** Python values and exceptions *)

(** The values found in the dictionary yt-dlp hands to a progress hook.
    Sizes that yt-dlp reports as floats are carried as integers. *)
Inductive PyVal :=
| PyNone
| PyInt (z : Z)
| PyStr (s : string).

(** [bool(v)] *)
Definition truthy (v : PyVal) : bool :=
  match v with
  | PyNone => false
  | PyInt z => negb (z =? 0)
  | PyStr s => negb (String.eqb s "")
  end.

(** [a or b] *)
Definition py_or (a b : PyVal) : PyVal := if truthy a then a else b.

(** [str(v)], as an f-string renders it *)
Definition py_str (v : PyVal) : string :=
  match v with
  | PyNone => "None"
  | PyInt z => pretty z
  | PyStr s => s
  end.

(** [v == s] for a string literal [s] *)
Definition py_eq_str (v : PyVal) (s : string) : bool :=
  match v with
  | PyStr s' => String.eqb s' s
  | _ => false
  end.

(** [type(v).__name__] *)
Definition py_type (v : PyVal) : string :=
  match v with
  | PyNone => "NoneType"
  | PyInt _ => "int"
  | PyStr _ => "str"
  end.

(** An instance of Python's [Exception]: [str(e)] and the text that
    [traceback.format_exc()] gives for it. *)
Record Exception := { exc_str : string; exc_traceback : string }.

(** The outcome of a Python call that may raise. *)
Inductive Result (A : Type) :=
| Ok (a : A)
| Raise (e : Exception).
Arguments Ok {A} a.
Arguments Raise {A} e.

Definition TypeError (msg : string) : Exception :=
  {| exc_str := msg; exc_traceback := "" |}.

Definition ValueError (msg : string) : Exception :=
  {| exc_str := msg; exc_traceback := "" |}.

(** ** Signals *)

(** The signals of class [Signals], with their arguments. *)
Inductive Signal :=
| append_console (text : string)
| item_progress (u : string) (percent : Z)
| item_status (u : string) (st : string)
| item_finished (u : string) (path : string)
| enable_ui (enabled : bool).

(** ** The fetch collaborator *)

(** The dictionary [d] of one progress-hook call: its top-level keys and,
    when present, the dictionary under ['info_dict']. *)
Record HookDict := {
  top : gmap string PyVal;
  info_dict : option (gmap string PyVal)
}.

(** [m.get(k)] *)
Definition dict_get (m : gmap string PyVal) (k : string) : PyVal :=
  default PyNone (m !! k).

(** [m.get(k, dflt)] *)
Definition dict_get_default (m : gmap string PyVal) (k : string) (dflt : PyVal) : PyVal :=
  default dflt (m !! k).

(** A call that the fetch library makes back into the program while it
    downloads: to the progress hook, or to a method of the logger. *)
Inductive FetchCall :=
| Hook (d : HookDict)
| LogDebug (msg : string)
| LogInfo (msg : string)
| LogWarning (msg : string)
| LogError (msg : string).

(** What the fetch library does inside
    [with YoutubeDL(opts) as ydl: ydl.download([url])]: the calls it makes
    back, in order; then the exception that the constructor or
    [download] raises, if any; and the exception that leaving the [with]
    block raises, if any. *)
Record Fetch := {
  calls : list FetchCall;
  raised : option Exception;
  exit_raised : option Exception
}.

(** The exception that comes out of the [with] block, if one does: the
    one raised on leaving it, else the one raised inside. *)
Definition fetch_exception (f : Fetch) : option Exception :=
  match exit_raised f with
  | Some e => Some e
  | None => raised f
  end.

(** ** The executor: [DownloadWorker] *)

Record YdlOpts := { format : string; outtmpl : string }.

Record DownloadWorker := {
  w_url : string;
  w_out_dir : string;
  w_ydl_opts : YdlOpts
}.

(** A computation of a worker thread: the signals it has emitted so far
    and how it ended. *)
Definition Emitting (A : Type) : Type := (list Signal * Result A)%type.

Definition emit (s : Signal) : Emitting unit := ([s], Ok tt).

Definition py_raise {A} (e : Exception) : Emitting A := ([], Raise e).

Definition bind {A B} (m : Emitting A) (k : A → Emitting B) : Emitting B :=
  match m with
  | (out, Ok a) => let '(out', r) := k a in (out ++ out', r)
  | (out, Raise e) => (out, Raise e)
  end.

Notation "'let!' x ':=' m 'in' k" := (bind m (fun x => k))
  (at level 10, x name, m at level 100, k at level 200).
Notation "m '>>>' k" := (bind m (fun _ => k))
  (at level 90, right associativity).

(** [try: body except Exception as e: handler(e)] *)
Definition try_except {A} (body : Emitting A) (handler : Exception → Emitting A) : Emitting A :=
  match body with
  | (out, Ok a) => (out, Ok a)
  | (out, Raise e) => let '(out', r) := handler e in (out ++ out', r)
  end.

Section Executor.

(** [int(downloaded / total * 100)] in Python's float arithmetic, for
    integers with [total ≠ 0]. *)
Variable float_percent : Z → Z → Z.

(** [downloaded / total * 100] on hook values: Python refuses [/] on
    anything but numbers. *)
Definition hook_percent (downloaded total : PyVal) : Emitting Z :=
  match downloaded, total with
  | PyInt dz, PyInt tz => ([], Ok (float_percent dz tz))
  | _, _ =>
      py_raise (TypeError ("unsupported operand type(s) for /: '" +:+ py_type downloaded
                           +:+ "' and '" +:+ py_type total +:+ "'"))
  end.

(** [self.signals.item_finished.emit(self.url, v)]: the signal is
    declared [pyqtSignal(str, str)]. *)
Definition emit_item_finished (u : string) (v : PyVal) : Emitting unit :=
  match v with
  | PyStr s => emit (item_finished u s)
  | _ =>
      py_raise (TypeError ("Signals.item_finished[str, str].emit(): argument 2 has unexpected type '"
                           +:+ py_type v +:+ "'"))
  end.

(** The closure [progress_hook(d)] of [run], for the worker whose url
    is [u]. *)
Definition progress_hook (u : string) (d : HookDict) : Emitting unit :=
  try_except
    (let st := dict_get (top d) "status" in
     if py_eq_str st "downloading" then
       let total := py_or (py_or (dict_get (top d) "total_bytes")
                                 (dict_get (top d) "total_bytes_estimate")) (PyInt 0) in
       let downloaded := dict_get_default (top d) "downloaded_bytes" (PyInt 0) in
       let! percent := (if truthy total then hook_percent downloaded total else ([], Ok 0)) in
       emit (item_progress u percent) >>>
       emit (append_console ("[" +:+ u +:+ "] downloading: " +:+ pretty percent
                             +:+ "% ETA=" +:+ py_str (dict_get (top d) "eta")))
     else if py_eq_str st "finished" then
       let filename :=
         py_or (dict_get (top d) "filename")
               (dict_get (default ∅ (info_dict d)) "filepath") in
       emit (item_progress u 100) >>>
       emit (append_console ("[" +:+ u +:+ "] finished -> " +:+ py_str filename)) >>>
       emit_item_finished u (py_or filename (PyStr ""))
     else ([], Ok tt))
    (fun e => emit (append_console ("[hook error] " +:+ exc_str e))).

(** The methods of [YDLLogger]. *)
Definition logger_call (c : FetchCall) : list Signal :=
  match c with
  | LogDebug _ => []
  | LogInfo msg => [append_console ("[yt-dlp] " +:+ msg)]
  | LogWarning msg => [append_console ("[WARNING] " +:+ msg)]
  | LogError msg => [append_console ("[ERROR] " +:+ msg)]
  | Hook _ => []
  end.

(** One call made by the fetch library while it downloads. *)
Definition fetch_call (u : string) (c : FetchCall) : Emitting unit :=
  match c with
  | Hook d => progress_hook u d
  | _ => (logger_call c, Ok tt)
  end.

Fixpoint fetch_calls (u : string) (cs : list FetchCall) : Emitting unit :=
  match cs with
  | [] => ([], Ok tt)
  | c :: cs' => fetch_call u c >>> fetch_calls u cs'
  end.

(** [result = ydl.download([self.url])], with the constructor call
    before it. *)
Definition ydl_download (u : string) (f : Fetch) : Emitting unit :=
  fetch_calls u (calls f) >>>
  match raised f with
  | None => ([], Ok tt)
  | Some e => py_raise e
  end.

(** [with YoutubeDL(...) as ydl: body]: leaving the block may raise,
    whether the body raised or not. *)
Definition with_YoutubeDL (f : Fetch) (body : Emitting unit) : Emitting unit :=
  match exit_raised f with
  | Some e => (body.1, Raise e)
  | None => body
  end.

(** [DownloadWorker.run].  [YoutubeDL] tells whether the module global
    of that name holds the class ([true]) or [None]. *)
Definition run (YoutubeDL : bool) (self : DownloadWorker) (f : Fetch) : Emitting unit :=
  try_except
    (emit (append_console ("Starting download: " +:+ w_url self)) >>>
     if negb YoutubeDL then
       emit (append_console "yt-dlp is not available. Skipping.") >>>
       emit (item_status (w_url self) "missing yt-dlp")
     else
       with_YoutubeDL f
         (ydl_download (w_url self) f >>>
          emit (item_status (w_url self) "done")))
    (fun e =>
       emit (append_console ("Error downloading " +:+ w_url self +:+ ": " +:+ exc_str e
                             +:+ String "010"%char (exc_traceback e))) >>>
       emit (item_status (w_url self) "error")).

End Executor.

(** ** Objects of Qt and of the operating system *)

(** The dictionary stored under [Qt.UserRole] in a queue item. *)
Record ItemData := {
  url : string;
  status : string;
  progress : Z;
  filepath : string
}.

(** A [QListWidgetItem] of the queue: its label, its data, and whether
    the user has it selected. *)
Record QListWidgetItem := {
  text : string;
  data : ItemData;
  selected : bool
}.

Definition item_url (it : QListWidgetItem) : string := url (data it).

(** [QProgressBar] with minimum 0: a fresh bar has maximum 100 and the
    value -1. *)
Record QProgressBar := {
  value : Z;
  maximum : Z
}.

Definition QProgressBar_new : QProgressBar := {| value := -1; maximum := 100 |}.

(** [QProgressBar.setValue]: a value outside the range is ignored,
    unless the range is the empty range 0..0. *)
Definition setValue (v : Z) (bar : QProgressBar) : QProgressBar :=
  if ((v <? 0) || (maximum bar <? v)) && negb (maximum bar =? 0)
  then bar
  else {| value := v; maximum := maximum bar |}.

(** [QProgressBar.setMaximum], for the non-negative arguments it gets
    here (a length): a value that falls outside the new range is reset. *)
Definition setMaximum (m : Z) (bar : QProgressBar) : QProgressBar :=
  {| value := if (value bar <? -1) || (m <? value bar) then -1 else value bar;
     maximum := m |}.

(** [QThreadPool]: the runnables its threads are executing and the run
    queue of those that wait for a thread. *)
Record QThreadPool := {
  maxThreadCount : Z;
  activeThreads : list DownloadWorker;
  runQueue : list DownloadWorker
}.

(** [QThreadPool()] on a machine whose ideal thread count is [ideal]. *)
Definition QThreadPool_new (ideal : Z) : QThreadPool :=
  {| maxThreadCount := ideal; activeThreads := []; runQueue := [] |}.

(** Threads take runnables off the run queue while the pool has fewer
    than [maxThreadCount] active threads. *)
Definition tryToStartMoreThreads (p : QThreadPool) : QThreadPool :=
  let room := Z.to_nat (maxThreadCount p - Z.of_nat (length (activeThreads p))) in
  {| maxThreadCount := maxThreadCount p;
     activeThreads := activeThreads p ++ take room (runQueue p);
     runQueue := drop room (runQueue p) |}.

(** [QThreadPool.setMaxThreadCount] *)
Definition setMaxThreadCount (n : Z) (p : QThreadPool) : QThreadPool :=
  tryToStartMoreThreads
    {| maxThreadCount := n; activeThreads := activeThreads p; runQueue := runQueue p |}.

(** [QThreadPool.start(runnable)]: the runnable gets a thread at once
    unless that would exceed [maxThreadCount]; otherwise it is queued. *)
Definition pool_start (wk : DownloadWorker) (p : QThreadPool) : QThreadPool :=
  if Z.of_nat (length (activeThreads p)) <? maxThreadCount p
  then {| maxThreadCount := maxThreadCount p;
          activeThreads := activeThreads p ++ [wk];
          runQueue := runQueue p |}
  else {| maxThreadCount := maxThreadCount p;
          activeThreads := activeThreads p;
          runQueue := runQueue p ++ [wk] |}.

(** The [k]-th active runnable returns from [run]: its thread is free
    for the next queued runnable. *)
Definition pool_finish (k : nat) (p : QThreadPool) : QThreadPool :=
  tryToStartMoreThreads
    {| maxThreadCount := maxThreadCount p;
       activeThreads := delete k (activeThreads p);
       runQueue := runQueue p |}.

(** The regular files of the file system, and those among them that
    [os.remove] fails on (permissions, locks). *)
Record FileSystem := {
  files : gset string;
  undeletable : gset string
}.

(** [os.path.isfile] *)
Definition isfile (fs : FileSystem) (path : string) : bool :=
  bool_decide (path ∈ files fs).

(** [os.remove]; the text of the [OSError] stands for the one of the
    operating system. *)
Definition os_remove (path : string) (fs : FileSystem) : Result FileSystem :=
  if bool_decide (path ∈ files fs) && negb (bool_decide (path ∈ undeletable fs))
  then Ok {| files := files fs ∖ {[ path ]}; undeletable := undeletable fs |}
  else Raise {| exc_str := "[Errno] " +:+ path; exc_traceback := "" |}.

(** [posixpath.basename]: what follows the last slash. *)
Fixpoint basename_from (seg : string) (p : string) : string :=
  match p with
  | EmptyString => seg
  | String c p' =>
      if Ascii.eqb c "/"%char then basename_from "" p'
      else basename_from (seg +:+ String c "") p'
  end.

Definition basename (p : string) : string := basename_from "" p.

Fixpoint endswith_slash (p : string) : bool :=
  match p with
  | EmptyString => false
  | String c EmptyString => Ascii.eqb c "/"%char
  | String _ p' => endswith_slash p'
  end.

Definition startswith_slash (p : string) : bool :=
  match p with
  | String c _ => Ascii.eqb c "/"%char
  | EmptyString => false
  end.

(** [posixpath.join(a, b)] *)
Definition path_join (a b : string) : string :=
  if startswith_slash b then b
  else if String.eqb a "" || endswith_slash a then a +:+ b
  else a +:+ "/" +:+ b.

(** ** The main window *)

(** The attributes of [MainWindow] that the queue logic reads or writes.
    [threadpool] is a reference: the index of a pool object in the
    process (below), so that rebinding it leaves the old pool alive.
    Widgets are kept by their content: the console by its paragraphs,
    the spin box by its value, the buttons by whether they are enabled. *)
Record MainWindow := {
  download_dir : string;
  threadpool : nat;
  queued_urls : list string;
  downloaded_files : list string;
  running_count : Z;
  queue_list : list QListWidgetItem;
  console : list string;
  global_progress : QProgressBar;
  threads_spin : Z;
  start_btn : bool;
  stop_btn : bool;
  install_btn : bool
}.

Definition set_download_dir (x : string) (w : MainWindow) : MainWindow :=
  {| download_dir := x; threadpool := threadpool w; queued_urls := queued_urls w;
     downloaded_files := downloaded_files w; running_count := running_count w;
     queue_list := queue_list w; console := console w;
     global_progress := global_progress w; threads_spin := threads_spin w;
     start_btn := start_btn w; stop_btn := stop_btn w; install_btn := install_btn w |}.

Definition set_threadpool (x : nat) (w : MainWindow) : MainWindow :=
  {| download_dir := download_dir w; threadpool := x; queued_urls := queued_urls w;
     downloaded_files := downloaded_files w; running_count := running_count w;
     queue_list := queue_list w; console := console w;
     global_progress := global_progress w; threads_spin := threads_spin w;
     start_btn := start_btn w; stop_btn := stop_btn w; install_btn := install_btn w |}.

Definition set_queued_urls (x : list string) (w : MainWindow) : MainWindow :=
  {| download_dir := download_dir w; threadpool := threadpool w; queued_urls := x;
     downloaded_files := downloaded_files w; running_count := running_count w;
     queue_list := queue_list w; console := console w;
     global_progress := global_progress w; threads_spin := threads_spin w;
     start_btn := start_btn w; stop_btn := stop_btn w; install_btn := install_btn w |}.

Definition set_downloaded_files (x : list string) (w : MainWindow) : MainWindow :=
  {| download_dir := download_dir w; threadpool := threadpool w;
     queued_urls := queued_urls w; downloaded_files := x; running_count := running_count w;
     queue_list := queue_list w; console := console w;
     global_progress := global_progress w; threads_spin := threads_spin w;
     start_btn := start_btn w; stop_btn := stop_btn w; install_btn := install_btn w |}.

Definition set_running_count (x : Z) (w : MainWindow) : MainWindow :=
  {| download_dir := download_dir w; threadpool := threadpool w;
     queued_urls := queued_urls w; downloaded_files := downloaded_files w;
     running_count := x; queue_list := queue_list w; console := console w;
     global_progress := global_progress w; threads_spin := threads_spin w;
     start_btn := start_btn w; stop_btn := stop_btn w; install_btn := install_btn w |}.

Definition set_queue_list (x : list QListWidgetItem) (w : MainWindow) : MainWindow :=
  {| download_dir := download_dir w; threadpool := threadpool w;
     queued_urls := queued_urls w; downloaded_files := downloaded_files w;
     running_count := running_count w; queue_list := x; console := console w;
     global_progress := global_progress w; threads_spin := threads_spin w;
     start_btn := start_btn w; stop_btn := stop_btn w; install_btn := install_btn w |}.

Definition set_console (x : list string) (w : MainWindow) : MainWindow :=
  {| download_dir := download_dir w; threadpool := threadpool w;
     queued_urls := queued_urls w; downloaded_files := downloaded_files w;
     running_count := running_count w; queue_list := queue_list w; console := x;
     global_progress := global_progress w; threads_spin := threads_spin w;
     start_btn := start_btn w; stop_btn := stop_btn w; install_btn := install_btn w |}.

Definition set_global_progress (x : QProgressBar) (w : MainWindow) : MainWindow :=
  {| download_dir := download_dir w; threadpool := threadpool w;
     queued_urls := queued_urls w; downloaded_files := downloaded_files w;
     running_count := running_count w; queue_list := queue_list w; console := console w;
     global_progress := x; threads_spin := threads_spin w; start_btn := start_btn w;
     stop_btn := stop_btn w; install_btn := install_btn w |}.

Definition set_threads_spin (x : Z) (w : MainWindow) : MainWindow :=
  {| download_dir := download_dir w; threadpool := threadpool w;
     queued_urls := queued_urls w; downloaded_files := downloaded_files w;
     running_count := running_count w; queue_list := queue_list w; console := console w;
     global_progress := global_progress w; threads_spin := x; start_btn := start_btn w;
     stop_btn := stop_btn w; install_btn := install_btn w |}.

Definition set_start_btn (x : bool) (w : MainWindow) : MainWindow :=
  {| download_dir := download_dir w; threadpool := threadpool w;
     queued_urls := queued_urls w; downloaded_files := downloaded_files w;
     running_count := running_count w; queue_list := queue_list w; console := console w;
     global_progress := global_progress w; threads_spin := threads_spin w; start_btn := x;
     stop_btn := stop_btn w; install_btn := install_btn w |}.

Definition set_stop_btn (x : bool) (w : MainWindow) : MainWindow :=
  {| download_dir := download_dir w; threadpool := threadpool w;
     queued_urls := queued_urls w; downloaded_files := downloaded_files w;
     running_count := running_count w; queue_list := queue_list w; console := console w;
     global_progress := global_progress w; threads_spin := threads_spin w;
     start_btn := start_btn w; stop_btn := x; install_btn := install_btn w |}.

Definition set_install_btn (x : bool) (w : MainWindow) : MainWindow :=
  {| download_dir := download_dir w; threadpool := threadpool w;
     queued_urls := queued_urls w; downloaded_files := downloaded_files w;
     running_count := running_count w; queue_list := queue_list w; console := console w;
     global_progress := global_progress w; threads_spin := threads_spin w;
     start_btn := start_btn w; stop_btn := stop_btn w; install_btn := x |}.

(** The running program: the window, the thread pools that exist (index
    0 is [QThreadPool.globalInstance()]), the file system, the module
    globals [YT_DLP_AVAILABLE] and [YoutubeDL] (is it the class, not
    [None]), and the signals that worker threads have emitted and the GUI
    thread has not yet delivered to its slots. *)
Record Process := {
  win : MainWindow;
  pools : list QThreadPool;
  fs : FileSystem;
  YT_DLP_AVAILABLE : bool;
  YoutubeDL : bool;
  events : list Signal;
  idealThreadCount : Z
}.

Definition set_win (x : MainWindow) (p : Process) : Process :=
  {| win := x; pools := pools p; fs := fs p; YT_DLP_AVAILABLE := YT_DLP_AVAILABLE p;
     YoutubeDL := YoutubeDL p; events := events p;
     idealThreadCount := idealThreadCount p |}.

Definition set_pools (x : list QThreadPool) (p : Process) : Process :=
  {| win := win p; pools := x; fs := fs p; YT_DLP_AVAILABLE := YT_DLP_AVAILABLE p;
     YoutubeDL := YoutubeDL p; events := events p;
     idealThreadCount := idealThreadCount p |}.

Definition set_fs (x : FileSystem) (p : Process) : Process :=
  {| win := win p; pools := pools p; fs := x; YT_DLP_AVAILABLE := YT_DLP_AVAILABLE p;
     YoutubeDL := YoutubeDL p; events := events p;
     idealThreadCount := idealThreadCount p |}.

Definition set_events (x : list Signal) (p : Process) : Process :=
  {| win := win p; pools := pools p; fs := fs p; YT_DLP_AVAILABLE := YT_DLP_AVAILABLE p;
     YoutubeDL := YoutubeDL p; events := x; idealThreadCount := idealThreadCount p |}.

Definition set_globals (available ydl : bool) (p : Process) : Process :=
  {| win := win p; pools := pools p; fs := fs p;
     YT_DLP_AVAILABLE := available; YoutubeDL := ydl;
     events := events p; idealThreadCount := idealThreadCount p |}.

(** Applying a [MainWindow] method that touches nothing else. *)
Definition in_win (f : MainWindow → MainWindow) (p : Process) : Process :=
  set_win (f (win p)) p.

(** The answers of a [QMessageBox]. *)
Inductive StandardButton := Yes | No | Cancel.

#[global] Instance StandardButton_eq_dec : EqDecision StandardButton.
Proof. solve_decision. Defined.

(** ** Slots of the main window *)

(** [_append_console]: [self.console.append(text)].  An emit of
    [append_console] from the GUI thread reaches this slot at once. *)
Definition _append_console (t : string) (w : MainWindow) : MainWindow :=
  set_console (console w ++ [t]) w.

(** The loop shared by [_on_item_progress] and [_set_item_status]: the
    first row whose data has the url [u] is rewritten, then [break]. *)
Fixpoint update_first (u : string) (f : QListWidgetItem → QListWidgetItem)
    (items : list QListWidgetItem) : list QListWidgetItem :=
  match items with
  | [] => []
  | it :: rest =>
      if String.eqb (url (data it)) u then f it :: rest
      else it :: update_first u f rest
  end.

Definition dash : string := "  — ".

Definition with_progress (percent : Z) (it : QListWidgetItem) : QListWidgetItem :=
  {| text := url (data it) +:+ dash +:+ pretty percent +:+ "%";
     data := {| url := url (data it); status := status (data it);
                progress := percent; filepath := filepath (data it) |};
     selected := selected it |}.

Definition with_status (st : string) (it : QListWidgetItem) : QListWidgetItem :=
  {| text := url (data it) +:+ dash +:+ st;
     data := {| url := url (data it); status := st;
                progress := progress (data it); filepath := filepath (data it) |};
     selected := selected it |}.

(** [_on_item_progress] *)
Definition _on_item_progress (u : string) (percent : Z) (w : MainWindow) : MainWindow :=
  set_queue_list (update_first u (with_progress percent) (queue_list w)) w.

(** [_set_item_status] *)
Definition _set_item_status (u : string) (st : string) (w : MainWindow) : MainWindow :=
  set_queue_list (update_first u (with_status st) (queue_list w)) w.

(** [_on_item_status] *)
Definition _on_item_status (u : string) (st : string) (w : MainWindow) : MainWindow :=
  _set_item_status u st w.

(** The path that [_on_item_finished] records for a reported path, if
    any: the path itself when it is a file, else the file of the same
    base name in the download directory. *)
Definition reconcile (disk : FileSystem) (dir : string) (path : string) : option string :=
  if negb (String.eqb path "") then
    if isfile disk path then Some path
    else
      let b := basename path in
      let cand := path_join dir b in
      if isfile disk cand then Some cand else None
  else None.

(** [_on_item_finished] *)
Definition _on_item_finished (disk : FileSystem) (u : string) (path : string)
    (w : MainWindow) : MainWindow :=
  let w1 :=
    match reconcile disk (download_dir w) path with
    | Some f => set_downloaded_files (downloaded_files w ++ [f]) w
    | None => w
    end in
  let w2 := _set_item_status u "completed" w1 in
  let cur := value (global_progress w2) in
  set_global_progress
    (setValue (Z.min (maximum (global_progress w2)) (cur + 1)) (global_progress w2)) w2.

(** [_set_ui_enabled] *)
Definition _set_ui_enabled (enabled : bool) (w : MainWindow) : MainWindow :=
  set_install_btn enabled (set_start_btn enabled w).

(** The connections made in [MainWindow.__init__]: each signal runs its
    slot. *)
Definition deliver (s : Signal) (p : Process) : Process :=
  match s with
  | append_console t => in_win (_append_console t) p
  | item_progress u percent => in_win (_on_item_progress u percent) p
  | item_status u st => in_win (_on_item_status u st) p
  | item_finished u path => in_win (_on_item_finished (fs p) u path) p
  | enable_ui b => in_win (_set_ui_enabled b) p
  end.

(** ** Adding and removing links *)

(** [list(dict.fromkeys(urls))]: the first occurrence of each key, in
    order. *)
Definition dict_fromkeys (urls : list string) : list string :=
  foldl (fun keys u => if bool_decide (u ∈ keys) then keys else keys ++ [u]) [] urls.

Section Extract.

(** [RUTUBE_LINK_RE.findall]: the matches of the link pattern in a
    text, as the regular-expression engine returns them. *)
Variable findall : string → list string.

(** [_extract_urls] *)
Definition _extract_urls (t : string) : list string :=
  let urls := findall t in
  dict_fromkeys urls.

End Extract.

(** The item that [_add_links] builds for a link. *)
Definition new_item (link : string) : QListWidgetItem :=
  {| text := link;
     data := {| url := link; status := "queued"; progress := 0; filepath := "" |};
     selected := false |}.

(** One round of the loop of [_add_links]; [added] is its counter. *)
Definition add_link (acc : MainWindow * Z) (link : string) : MainWindow * Z :=
  let '(w, added) := acc in
  if bool_decide (link ∈ queued_urls w) then (w, added)
  else
    let w1 := set_queue_list (queue_list w ++ [new_item link]) w in
    let w2 := set_queued_urls (queued_urls w1 ++ [link]) w1 in
    (_append_console ("[DEBUG] Добавлена полная ссылка: " +:+ link) w2, added + 1).

(** [_add_links] *)
Definition _add_links (links : list string) (w : MainWindow) : MainWindow :=
  let '(w', added) := foldl add_link (w, 0) links in
  _append_console ("Добавлено ссылок: " +:+ pretty added) w'.

(** [list.remove(x)]: drops the first occurrence, raises [ValueError]
    when there is none. *)
Fixpoint list_remove (x : string) (l : list string) : Result (list string) :=
  match l with
  | [] => Raise (ValueError "list.remove(x): x not in list")
  | y :: l' =>
      if String.eqb y x then Ok l'
      else match list_remove x l' with
           | Ok r => Ok (y :: r)
           | Raise e => Raise e
           end
  end.

(** The loop of [remove_selected] over the selected items, taken in row
    order: each one has its url removed from [queued_urls], is taken out
    of the widget and logged.  [items] are the rows not yet visited. *)
Fixpoint remove_rows (items : list QListWidgetItem) (urls : list string) (con : list string)
    : Result (list QListWidgetItem * list string * list string) :=
  match items with
  | [] => Ok ([], urls, con)
  | it :: rest =>
      if selected it then
        match list_remove (url (data it)) urls with
        | Raise e => Raise e
        | Ok urls' =>
            remove_rows rest urls' (con ++ ["Удалено из очереди: " +:+ url (data it)])
        end
      else
        match remove_rows rest urls con with
        | Ok (kept, urls', con') => Ok (it :: kept, urls', con')
        | Raise e => Raise e
        end
  end.

(** [remove_selected] *)
Definition remove_selected (w : MainWindow) : Result MainWindow :=
  match remove_rows (queue_list w) (queued_urls w) (console w) with
  | Ok (kept, urls, con) => Ok (set_console con (set_queued_urls urls (set_queue_list kept w)))
  | Raise e => Raise e
  end.

(** [choose_dir], where [d] is what the directory dialog returned. *)
Definition choose_dir (d : string) (w : MainWindow) : MainWindow :=
  if negb (String.eqb d "") then set_download_dir d w else w.

(** ** Starting, stopping and resetting *)

(** [self.threadpool.m(...)]: a method applied to the pool object that
    the attribute refers to. *)
Definition on_threadpool (m : QThreadPool → QThreadPool) (p : Process) : Process :=
  set_pools (alter m (threadpool (win p)) (pools p)) p.

(** The worker that [_submit_all] builds for a url. *)
Definition make_worker (dir : string) (u : string) : DownloadWorker :=
  {| w_url := u;
     w_out_dir := dir;
     w_ydl_opts := {| format := "best";
                      outtmpl := path_join dir "%(title)s.%(ext)s" |} |}.

(** One round of the loop of [_submit_all], for the row whose url is [u]. *)
Definition submit_row (p : Process) (u : string) : Process :=
  let worker := make_worker (download_dir (win p)) u in
  let p1 := on_threadpool (pool_start worker) p in
  let p2 := in_win (fun w => set_running_count (running_count w + 1) w) p1 in
  in_win (_set_item_status u "running") p2.

(** [_submit_all].  The loop reads the url of row [i] for each [i]; the
    rounds change neither the rows' urls nor their number, so the urls
    are taken once. *)
Definition _submit_all (max_workers : Z) (p : Process) : Process :=
  let p1 :=
    in_win (_append_console
              ("Запуск скачивания " +:+ pretty (Z.of_nat (length (queued_urls (win p))))
               +:+ " файлов (" +:+ pretty max_workers +:+ " потоков)")) p in
  let p2 := on_threadpool (setMaxThreadCount max_workers) p1 in
  foldl submit_row p2 (map item_url (queue_list (win p2))).

Definition dquote : string := String (ascii_of_nat 34) "".

(** A [QMessageBox.warning] shown to the user: title and text. *)
Record Warning := { title : string; message : string }.

(** [start_downloads]: the process afterwards, and the warning box when
    the call was refused. *)
Definition start_downloads (p : Process) : Process * option Warning :=
  match queued_urls (win p) with
  | [] => (p, Some {| title := "Очередь пуста"; message := "Добавьте ссылки перед стартом" |})
  | _ :: _ =>
      if negb (YT_DLP_AVAILABLE p) then
        (p, Some {| title := "yt-dlp не установлен";
                    message := "Пожалуйста, установите yt-dlp через кнопку " +:+ dquote
                               +:+ "Установить yt-dlp" +:+ dquote |})
      else
        let p1 := in_win (fun w => set_install_btn false (set_stop_btn true (set_start_btn false w))) p in
        let max_workers := threads_spin (win p1) in
        let p2 := in_win (fun w => set_global_progress (setValue 0 (global_progress w)) w) p1 in
        let p3 := in_win (fun w => set_global_progress
                                     (setMaximum (Z.of_nat (length (queued_urls w))) (global_progress w)) w) p2 in
        let p4 := in_win (set_running_count 0) p3 in
        (_submit_all max_workers p4, None)
  end.

(** [stop_downloads], where [reply] is the answer to its question box.
    [QThreadPool()] creates a new pool object; the old one is no longer
    referred to by the window but keeps its threads and its run queue. *)
Definition stop_downloads (reply : StandardButton) (p : Process) : Process :=
  if bool_decide (reply = Yes) then
    let fresh := length (pools p) in
    let p1 := set_pools (pools p ++ [QThreadPool_new (idealThreadCount p)]) p in
    let p2 := in_win (set_threadpool fresh) p1 in
    let p3 := on_threadpool (setMaxThreadCount (threads_spin (win p2))) p2 in
    let p4 := in_win (_append_console
                        "Загрузка остановлена пользователем (остановлены новые задания).") p3 in
    in_win (fun w => set_install_btn true (set_stop_btn false (set_start_btn true w))) p4
  else p.

(** One round of the deletion loop of [reset_all]; [removed] is its
    counter. *)
Definition delete_file (acc : FileSystem * MainWindow * Z) (f : string)
    : FileSystem * MainWindow * Z :=
  let '(disk, w, removed) := acc in
  if isfile disk f then
    match os_remove f disk with
    | Ok disk' => (disk', w, removed + 1)
    | Raise e =>
        (disk, _append_console ("Ошибка при удалении " +:+ f +:+ ": " +:+ exc_str e) w, removed)
    end
  else (disk, w, removed).

(** [reset_all], where [res] is the button that closed the dialog and
    [checked] the state of its check box. *)
Definition reset_all (res : StandardButton) (checked : bool) (p : Process) : Process :=
  match res with
  | Cancel => p
  | _ =>
      let p1 :=
        if bool_decide (res = Yes) && checked then
          let '(disk, w, removed) :=
            foldl delete_file (fs p, win p, 0) (downloaded_files (win p)) in
          set_fs disk (set_win (_append_console ("Удалено файлов: " +:+ pretty removed) w) p)
        else p in
      in_win (fun w =>
                set_global_progress (setValue 0 (global_progress w))
                  (set_downloaded_files []
                     (set_console []
                        (set_queued_urls []
                           (set_queue_list [] w))))) p1
  end.

(** [_on_pip_finished], where [code] is the exit code of pip and
    [import_error] the message of the exception that importing [yt_dlp]
    raised afterwards, if it did. *)
Definition _on_pip_finished (code : Z) (import_error : option string) (p : Process) : Process :=
  let p1 := in_win (_append_console ("pip finished with code " +:+ pretty code)) p in
  let p2 := in_win (set_install_btn true) p1 in
  let p3 :=
    match import_error with
    | None =>
        in_win (_append_console "yt-dlp успешно импортирован") (set_globals true true p2)
    | Some e =>
        set_globals false (YoutubeDL p2)
          (in_win (_append_console ("Не удалось импортировать yt-dlp: " +:+ e)) p2)
    end in
  in_win (set_install_btn (negb (YT_DLP_AVAILABLE p3))) p3.

(** ** The program as a transition system *)

(** What can happen next: the user acts on the window, a worker thread
    emits a signal or returns from [run], pip ends, or the GUI thread
    delivers the oldest pending signal. *)
Inductive Action :=
| UserAddLinks (links : list string)
| UserSelect (row : nat) (on : bool)
| UserRemoveSelected
| UserChooseDir (d : string)
| UserSetThreads (n : Z)
| UserClearConsole
| UserStart
| UserStop (reply : StandardButton)
| UserReset (res : StandardButton) (checked : bool)
| PipFinished (code : Z) (import_error : option string)
| WorkerEmits (pool k : nat) (f : Fetch) (j : nat)
| WorkerReturns (pool k : nat)
| Deliver.

Definition set_selected (on : bool) (it : QListWidgetItem) : QListWidgetItem :=
  {| text := text it; data := data it; selected := on |}.

(** The window right after [MainWindow.__init__], in a process whose
    global pool has [ideal] threads. *)
Definition initial (dir : string) (disk : FileSystem) (available : bool) (ideal : Z) : Process :=
  {| win := {| download_dir := dir;
               threadpool := 0%nat;
               queued_urls := [];
               downloaded_files := [];
               running_count := 0;
               queue_list := [];
               console := [];
               global_progress := QProgressBar_new;
               threads_spin := 3;
               start_btn := true;
               stop_btn := false;
               install_btn := negb available |};
     pools := [QThreadPool_new ideal];
     fs := disk;
     YT_DLP_AVAILABLE := available;
     YoutubeDL := available;
     events := [];
     idealThreadCount := ideal |}.

Section Machine.

Variable float_percent : Z → Z → Z.

(** The [k]-th active runnable of pool number [pool]. *)
Definition active_worker (pool k : nat) (p : Process) : option DownloadWorker :=
  pl ← pools p !! pool; activeThreads pl !! k.

(** One action, when the program can take it.  A button that is
    disabled sends no click; a spin box keeps its value in 1..16; a
    running worker may emit any signal that [run] emits for some
    behaviour of the fetch library. *)
Definition exec (a : Action) (p : Process) : option Process :=
  match a with
  | UserAddLinks links => Some (in_win (_add_links links) p)
  | UserSelect row on =>
      Some (in_win (fun w => set_queue_list (alter (set_selected on) row (queue_list w)) w) p)
  | UserRemoveSelected =>
      match remove_selected (win p) with
      | Ok w => Some (set_win w p)
      | Raise _ => None
      end
  | UserChooseDir d => Some (in_win (choose_dir d) p)
  | UserSetThreads n =>
      if (1 <=? n) && (n <=? 16) then Some (in_win (set_threads_spin n) p) else None
  | UserClearConsole => Some (in_win (set_console []) p)
  | UserStart =>
      if start_btn (win p) then Some (start_downloads p).1 else None
  | UserStop reply =>
      if stop_btn (win p) then Some (stop_downloads reply p) else None
  | UserReset res checked => Some (reset_all res checked p)
  | PipFinished code import_error => Some (_on_pip_finished code import_error p)
  | WorkerEmits pool k f j =>
      wk ← active_worker pool k p;
      s ← (run float_percent (YoutubeDL p) wk f).1 !! j;
      Some (set_events (events p ++ [s]) p)
  | WorkerReturns pool k =>
      _ ← active_worker pool k p;
      Some (set_pools (alter (pool_finish k) pool (pools p)) p)
  | Deliver =>
      match events p with
      | [] => None
      | s :: rest => Some (deliver s (set_events rest p))
      end
  end.

Definition step (p p' : Process) : Prop := ∃ a, exec a p = Some p'.

(** Running a list of actions, while they are possible. *)
Fixpoint execs (l : list Action) (p : Process) : option Process :=
  match l with
  | [] => Some p
  | a :: l' => p' ← exec a p; execs l' p'
  end.

(** The states the program can be in. *)
Definition reachable (p : Process) : Prop :=
  ∃ dir disk available ideal, 1 ≤ ideal ∧ rtc step (initial dir disk available ideal) p.

End Machine.

(** * Properties *)

(** ** Reading the item store *)

(** The urls held by the rows of the queue widget, in row order. *)
Definition item_urls (w : MainWindow) : list string := map item_url (queue_list w).

(** The row that the slots find for a url: the first one that has it. *)
Definition item_of (u : string) (w : MainWindow) : option QListWidgetItem :=
  List.find (fun it => String.eqb (item_url it) u) (queue_list w).

Definition status_of (u : string) (w : MainWindow) : option string :=
  (fun it => status (data it)) <$> item_of u w.

Definition progress_of (u : string) (w : MainWindow) : option Z :=
  (fun it => progress (data it)) <$> item_of u w.

(** The urls of the rows whose status is ['running']. *)
Definition running_urls (w : MainWindow) : list string :=
  map item_url (filter (fun it => status (data it) = "running") (queue_list w)).

(** The url list and the widget agree. *)
Definition in_sync (w : MainWindow) : Prop :=
  item_urls w = queued_urls w ∧ NoDup (queued_urls w).

(** The signals that the worker for the url [u] can emit. *)
Definition signal_of_worker (u : string) (s : Signal) : Prop :=
  match s with
  | append_console _ => True
  | item_progress u' _ => u' = u
  | item_status u' st => u' = u ∧ (st = "missing yt-dlp" ∨ st = "done" ∨ st = "error")
  | item_finished u' _ => u' = u
  | enable_ui _ => False
  end.

(** The GUI thread delivers a list of signals in order. *)
Definition deliver_all (signals : list Signal) (p : Process) : Process :=
  foldl (fun q s => deliver s q) p signals.

(** ** Invariants of the running program *)

(** A pool runs no more runnables than its thread limit. *)
Definition pool_bounded (pl : QThreadPool) : Prop :=
  Z.of_nat (length (activeThreads pl)) ≤ maxThreadCount pl.

Definition pool_idle (pl : QThreadPool) : Prop :=
  activeThreads pl = [] ∧ runQueue pl = [].

(** A signal that some worker emitted. *)
Definition pending_signal (s : Signal) : Prop := ∃ u, signal_of_worker u s.

Definition bar_ok (bar : QProgressBar) : Prop :=
  -1 ≤ value bar ∧ 0 ≤ maximum bar.

(** The window refers to a pool that exists, and that pool is idle
    whenever the Start button is enabled. *)
Definition current_ok (w : MainWindow) (pls : list QThreadPool) : Prop :=
  (threadpool w < length pls)%nat
  ∧ (start_btn w = true → ∃ pl, pls !! threadpool w = Some pl ∧ pool_idle pl).

Definition invariant (p : Process) : Prop :=
  in_sync (win p)
  ∧ 1 ≤ threads_spin (win p) ≤ 16
  ∧ bar_ok (global_progress (win p))
  ∧ Forall pool_bounded (pools p)
  ∧ current_ok (win p) (pools p)
  ∧ Forall pending_signal (events p).

(** Pool number [i] has the limit [n], and is either the pool of a batch
    that was started and not stopped, or a pool that the window has
    left behind. *)
Definition batch_pool (i : nat) (n : Z) (p : Process) : Prop :=
  (∃ pl, pools p !! i = Some pl ∧ maxThreadCount pl = n)
  ∧ ((threadpool (win p) = i ∧ start_btn (win p) = false) ∨ (i < threadpool (win p))%nat).


(** ** Paths *)

(** Does the path contain a slash? *)
Fixpoint has_slash (p : string) : bool :=
  match p with
  | EmptyString => false
  | String c p' => Ascii.eqb c "/"%char || has_slash p'
  end.

(** ** The three ways to add links *)

(** The text of the three input widgets. *)
Record Inputs := {
  single_input : string;
  batch_input : string;
  rich_input : string
}.

(** A message box shown by an add action. *)
Inductive MessageBox :=
| QMessageBox_warning (caption body : string)
| QMessageBox_information (caption body : string).

Section AddActions.

(** [str.strip], [str.splitlines] and [RUTUBE_LINK_RE.findall], as
    Python computes them. *)
Variable strip : string → string.
Variable splitlines : string → list string.
Variable findall : string → list string.

(** [add_single] *)
Definition add_single (ins : Inputs) (w : MainWindow) : Inputs * MainWindow * option MessageBox :=
  let t := strip (single_input ins) in
  if String.eqb t "" then
    (ins, w, Some (QMessageBox_warning "Ошибка" "Ссылка пустая"))
  else
    let links := _extract_urls findall t in
    ({| single_input := ""; batch_input := batch_input ins; rich_input := rich_input ins |},
     _add_links links w, None).

(** [add_batch] *)
Definition add_batch (ins : Inputs) (w : MainWindow) : Inputs * MainWindow * option MessageBox :=
  let t := strip (batch_input ins) in
  if String.eqb t "" then
    (ins, w, Some (QMessageBox_warning "Ошибка" "Нет текста для добавления"))
  else
    let lines :=
      map strip (filter (fun l => strip l ≠ "") (splitlines t)) in
    let links := foldl (fun links l => links ++ _extract_urls findall l) [] lines in
    match links with
    | [] =>
        (ins, w, Some (QMessageBox_information "Ничего не найдено"
                                               "Не найдено ссылок rutube в тексте"))
    | _ :: _ =>
        ({| single_input := single_input ins; batch_input := ""; rich_input := rich_input ins |},
         _add_links links w, None)
    end.

(** [extract_links] *)
Definition extract_links (ins : Inputs) (w : MainWindow) : Inputs * MainWindow * option MessageBox :=
  let t := rich_input ins in
  let links := _extract_urls findall t in
  match links with
  | [] =>
      (ins, w, Some (QMessageBox_information "Ничего не найдено"
                                             "Не найдено ссылок rutube в тексте"))
  | _ :: _ =>
      ({| single_input := single_input ins; batch_input := batch_input ins; rich_input := "" |},
       _add_links links w, None)
  end.

End AddActions.

(** ** More invariants of the running program *)

(** The signals that the progress hook and the logger of the worker for
    [u] emit: console lines, progress and [finished], never a status. *)
Definition hook_signal (u : string) (s : Signal) : Prop :=
  match s with
  | append_console _ => True
  | item_progress u' _ => u' = u
  | item_finished u' _ => u' = u
  | item_status _ _ => False
  | enable_ui _ => False
  end.

(** The signals of a worker that found the fetch library. *)
Definition fetched_signal (u : string) (s : Signal) : Prop :=
  match s with
  | item_status u' st => u' = u ∧ (st = "done" ∨ st = "error")
  | _ => hook_signal u s
  end.

Definition known_status (st : string) : Prop :=
  st = "queued" ∨ st = "running" ∨ st = "done" ∨ st = "error" ∨ st = "completed".

(** A row whose [filepath] was never written and whose status is one of
    the five that occur. *)
Definition row_ok (it : QListWidgetItem) : Prop :=
  filepath (data it) = "" ∧ known_status (status (data it)).

Definition has_worker (pl : QThreadPool) : Prop :=
  activeThreads pl ≠ [] ∨ runQueue pl ≠ [].

Definition housekeeping (p : Process) : Prop :=
  (YT_DLP_AVAILABLE p = true → YoutubeDL p = true)
  ∧ (Exists has_worker (pools p) → YoutubeDL p = true)
  ∧ stop_btn (win p) = negb (start_btn (win p))
  ∧ Forall row_ok (queue_list (win p))
  ∧ value (global_progress (win p)) ≤ maximum (global_progress (win p))
  ∧ Forall (fun s => ∃ u, fetched_signal u s) (events p).

(** ** Values for the examples *)

(** [float_percent] on sizes small enough for float division to be exact. *)
Definition exact_percent (downloaded total : Z) : Z := downloaded * 100 / total.

Definition demo_disk : FileSystem :=
  {| files := {[ "/downloads/a.mp4" ]}; undeletable := ∅ |}.

Definition demo_url : string := "https://rutube.ru/video/1/".

Definition other_url : string := "https://rutube.ru/video/2/".

(** A fresh window with one link queued. *)
Definition demo : Process :=
  in_win (_add_links [demo_url]) (initial "/downloads" demo_disk true 4).

Definition demo_worker : DownloadWorker := make_worker "/downloads" demo_url.

(** The same window after Start. *)
Definition demo_started : Process := (start_downloads demo).1.

(** A download whose size is known at first and unknown later. *)
Definition fetch_losing_total : Fetch :=
  {| calls := [Hook {| top := {[ "status" := PyStr "downloading";
                                 "total_bytes" := PyInt 2;
                                 "downloaded_bytes" := PyInt 1 ]};
                       info_dict := None |};
               Hook {| top := {[ "status" := PyStr "downloading";
                                 "downloaded_bytes" := PyInt 1 ]};
                       info_dict := None |}];
     raised := None;
     exit_raised := None |}.

(** A download that fails at once. *)
Definition fetch_failing : Fetch :=
  {| calls := [];
     raised := Some {| exc_str := "ERROR: unable to download"; exc_traceback := "Traceback" |};
     exit_raised := None |}.

(** The started window once its worker has emitted its first signal, and
    once that signal has been delivered. *)
Definition demo_emitting : Process :=
  default demo_started (exec exact_percent (WorkerEmits 0 0 fetch_failing 0) demo_started).

Definition demo_delivered : Process :=
  default demo_emitting (exec exact_percent Deliver demo_emitting).

(** * Proofs *)

(** ** Lists *)

Lemma update_first_urls u f items :
  (∀ it, item_url (f it) = item_url it) →
  map item_url (update_first u f items) = map item_url items.
Proof.
  intros Hf. induction items as [|it rest IH]; simpl; [done|].
  destruct (String.eqb (url (data it)) u); simpl; [by rewrite Hf | by rewrite IH].
Qed.

Lemma update_first_length u f items :
  length (update_first u f items) = length items.
Proof.
  induction items as [|it rest IH]; simpl; [done|].
  destruct (String.eqb (url (data it)) u); simpl; [done | by rewrite IH].
Qed.

Lemma set_status_urls u st w : item_urls (_set_item_status u st w) = item_urls w.
Proof. apply update_first_urls. done. Qed.

Lemma on_progress_urls u pct w : item_urls (_on_item_progress u pct w) = item_urls w.
Proof. apply update_first_urls. done. Qed.

(** ** Adding links *)

Lemma foldl_fromkeys (urls : list string) :
  ∀ keys,
    NoDup keys →
    NoDup (foldl (fun keys u => if bool_decide (u ∈ keys) then keys else keys ++ [u]) keys urls)
    ∧ ∀ u, u ∈ foldl (fun keys u => if bool_decide (u ∈ keys) then keys else keys ++ [u]) keys urls
           ↔ u ∈ keys ∨ u ∈ urls.
Proof.
  induction urls as [|x urls IH]; intros keys Hnd; simpl.
  - split; [done|]. intros u. rewrite elem_of_nil. tauto.
  - destruct (decide (x ∈ keys)) as [Hin|Hout].
    + rewrite bool_decide_eq_true_2 by done. destruct (IH keys Hnd) as [H1 H2].
      split; [done|]. intros u. rewrite H2, elem_of_cons.
      split; [tauto|]. intros [?|[->|?]]; auto.
    + rewrite bool_decide_eq_false_2 by done.
      destruct (IH (keys ++ [x])) as [H1 H2].
      { apply NoDup_app. split; [done|]. split; [|apply NoDup_singleton].
        by intros y Hy ->%list_elem_of_singleton. }
      split; [done|]. intros u.
      rewrite H2, elem_of_app, list_elem_of_singleton, elem_of_cons. tauto.
Qed.

(** [_extract_urls] returns each match once. *)
Lemma extract_urls_unique (findall : string → list string) (t : string) :
  NoDup (_extract_urls findall t)
  ∧ ∀ u, u ∈ _extract_urls findall t ↔ u ∈ findall t.
Proof.
  destruct (foldl_fromkeys (findall t) [] (NoDup_nil_2 (A:=string))) as [H1 H2].
  split; [exact H1|]. intros u. unfold _extract_urls, dict_fromkeys.
  rewrite H2, elem_of_nil. tauto.
Qed.

Lemma add_link_present w n link :
  link ∈ queued_urls w → add_link (w, n) link = (w, n).
Proof. intros H. unfold add_link. by rewrite bool_decide_eq_true_2. Qed.

Lemma add_link_absent w n link :
  link ∉ queued_urls w →
  ∃ w', add_link (w, n) link = (w', n + 1)
        ∧ queue_list w' = queue_list w ++ [new_item link]
        ∧ queued_urls w' = queued_urls w ++ [link]
        ∧ downloaded_files w' = downloaded_files w
        ∧ threadpool w' = threadpool w
        ∧ start_btn w' = start_btn w
        ∧ stop_btn w' = stop_btn w
        ∧ threads_spin w' = threads_spin w
        ∧ global_progress w' = global_progress w.
Proof.
  intros H. unfold add_link. rewrite bool_decide_eq_false_2 by done.
  eexists. split; [reflexivity|]. by simpl.
Qed.

Lemma add_link_sync acc link : in_sync acc.1 → in_sync (add_link acc link).1.
Proof.
  destruct acc as [w n]. intros [Hurls Hnd]. simpl in Hurls, Hnd.
  destruct (decide (link ∈ queued_urls w)) as [Hin|Hout].
  - rewrite add_link_present by done. by split.
  - destruct (add_link_absent w n link Hout) as (w' & -> & Hq & Hu & _). simpl.
    split.
    + unfold item_urls. rewrite Hq, Hu, map_app. simpl. by rewrite <- Hurls.
    + rewrite Hu. apply NoDup_app. split; [done|]. split.
      * intros x Hx ->%list_elem_of_singleton. done.
      * apply NoDup_singleton.
Qed.

Lemma foldl_add_link_sync links acc :
  in_sync acc.1 → in_sync (foldl add_link acc links).1.
Proof.
  revert acc. induction links as [|l links IH]; intros acc H; simpl; [done|].
  apply IH. by apply add_link_sync.
Qed.

Lemma add_links_queue links w :
  queue_list (_add_links links w) = queue_list (foldl add_link (w, 0) links).1
  ∧ queued_urls (_add_links links w) = queued_urls (foldl add_link (w, 0) links).1.
Proof. unfold _add_links. by destruct (foldl add_link (w, 0) links) as [w' n]. Qed.

Lemma add_links_sync links w : in_sync w → in_sync (_add_links links w).
Proof.
  intros H. pose proof (foldl_add_link_sync links (w, 0) H) as [H1 H2].
  destruct (add_links_queue links w) as [Hq Hu].
  split; unfold item_urls; rewrite ?Hq, Hu; done.
Qed.

Lemma filter_url_absent (items : list QListWidgetItem) (u : string) :
  u ∉ map item_url items → filter (fun it => item_url it = u) items = [].
Proof.
  induction items as [|it rest IH]; simpl; intros Hout; [done|].
  apply not_elem_of_cons in Hout as [Hne Hout].
  rewrite filter_cons_False by congruence. by apply IH.
Qed.

Lemma count_unique_url (items : list QListWidgetItem) (u : string) :
  NoDup (map item_url items) → u ∈ map item_url items →
  length (filter (fun it => item_url it = u) items) = 1%nat.
Proof.
  induction items as [|it rest IH]; simpl; intros Hnd Hin.
  - by apply elem_of_nil in Hin.
  - apply NoDup_cons in Hnd as [Hfresh Hnd].
    rewrite filter_cons. destruct (decide (item_url it = u)) as [Heq|Hne].
    + simpl. f_equal. rewrite filter_url_absent; [done|]. by rewrite <- Heq.
    + apply IH; [done|]. apply elem_of_cons in Hin as [Hu|Hin]; [congruence|done].
Qed.

(** C8.  Adding a url is idempotent: when the url is already in the live
    queue the rows and the url list stay as they are; when it is not,
    exactly one row is appended, with status ['queued'] and progress 0;
    so submitting the same url twice, in two calls or in one, leaves
    exactly one row for it. *)
Theorem add_links_idempotent (w : MainWindow) (u : string) :
  in_sync w →
  let w1 := _add_links [u] w in
  (u ∈ item_urls w → queue_list w1 = queue_list w ∧ queued_urls w1 = queued_urls w)
  ∧ (u ∉ item_urls w →
     queue_list w1 = queue_list w ++ [new_item u] ∧ queued_urls w1 = queued_urls w ++ [u])
  ∧ status (data (new_item u)) = "queued"
  ∧ progress (data (new_item u)) = 0
  ∧ queue_list (_add_links [u] w1) = queue_list w1
  ∧ queue_list (_add_links [u; u] w) = queue_list w1
  ∧ length (filter (fun it => item_url it = u) (queue_list (_add_links [u] w1))) = 1%nat.
Proof.
  intros Hsync w1.
  assert (Hsync1 : in_sync w1) by by apply add_links_sync.
  assert (Hin1 : u ∈ queued_urls w1).
  { subst w1. destruct (add_links_queue [u] w) as [_ ->]. cbn [foldl].
    destruct (decide (u ∈ queued_urls w)) as [Hin|Hout].
    - by rewrite add_link_present.
    - destruct (add_link_absent w 0 u Hout) as (w' & -> & _ & Hu & _).
      simpl. rewrite Hu. apply elem_of_app. right. by apply list_elem_of_singleton. }
  assert (Hagain : queue_list (_add_links [u] w1) = queue_list w1).
  { destruct (add_links_queue [u] w1) as [-> _]. cbn [foldl]. by rewrite add_link_present. }
  destruct Hsync as [Hurls Hnd].
  split.
  { intros Hin. rewrite Hurls in Hin. subst w1.
    destruct (add_links_queue [u] w) as [-> ->]. cbn [foldl].
    by rewrite add_link_present. }
  split.
  { intros Hout. rewrite Hurls in Hout. subst w1.
    destruct (add_links_queue [u] w) as [-> ->]. cbn [foldl].
    by destruct (add_link_absent w 0 u Hout) as (w' & -> & Hq & Hu & _). }
  do 3 (split; [done|]).
  split.
  - subst w1. destruct (add_links_queue [u; u] w) as [-> _].
    destruct (add_links_queue [u] w) as [-> _]. cbn [foldl].
    destruct (decide (u ∈ queued_urls w)) as [Hin|Hout].
    + by rewrite !add_link_present.
    + destruct (add_link_absent w 0 u Hout) as (w' & -> & _ & Hu' & _).
      rewrite add_link_present; [done|].
      rewrite Hu'. apply elem_of_app. right. by apply list_elem_of_singleton.
  - rewrite Hagain. destruct Hsync1 as [Hurls1 Hnd1].
    apply count_unique_url; fold (item_urls w1); by rewrite Hurls1.
Qed.

(** C5.  [start_downloads] refuses, with a warning box and without
    changing anything in the process (no worker handed to a pool, no row
    touched), when the queue is empty or yt-dlp is not available. *)
Theorem start_downloads_rejects (p : Process) :
  queued_urls (win p) = [] ∨ YT_DLP_AVAILABLE p = false →
  ∃ box, start_downloads p = (p, Some box).
Proof.
  intros [Hempty|Hmissing]; unfold start_downloads.
  - rewrite Hempty. eauto.
  - destruct (queued_urls (win p)); [eauto|]. rewrite Hmissing. simpl. eauto.
Qed.

(** ** Removing rows *)

Lemma list_remove_middle (pre rest : list string) (x : string) :
  x ∉ pre → list_remove x (pre ++ x :: rest) = Ok (pre ++ rest).
Proof.
  induction pre as [|y pre IH]; simpl; intros Hout.
  - by rewrite String.eqb_refl.
  - apply not_elem_of_cons in Hout as [Hne Hout].
    assert (String.eqb y x = false) as -> by (apply String.eqb_neq; congruence).
    by rewrite IH.
Qed.

Lemma remove_rows_in_step (items : list QListWidgetItem) :
  ∀ (pre con : list string),
    NoDup (pre ++ map item_url items) →
    ∃ kept con',
      remove_rows items (pre ++ map item_url items) con = Ok (kept, pre ++ map item_url kept, con')
      ∧ kept `sublist_of` items.
Proof.
  induction items as [|it rest IH]; intros pre con Hnd; simpl.
  - exists [], con. split; [done|]. constructor.
  - destruct (selected it).
    + fold (item_url it). rewrite list_remove_middle.
      2:{ apply NoDup_app in Hnd as (_ & Hdisj & _). intros Hin.
          apply (Hdisj _ Hin). simpl. apply elem_of_cons. by left. }
      destruct (IH pre (con ++ ["Удалено из очереди: " +:+ item_url it])) as (kept & con' & Heq & Hsub).
      { apply NoDup_app in Hnd as (Hpre & Hdisj & Hrest). apply NoDup_cons in Hrest as [_ Hrest].
        apply NoDup_app. split; [done|]. split; [|done].
        intros x Hx Hx'. apply (Hdisj x Hx). simpl. apply elem_of_cons. by right. }
      exists kept, con'. split; [done|]. by constructor.
    + destruct (IH (pre ++ [item_url it]) con) as (kept & con' & Heq & Hsub).
      { by rewrite <- app_assoc. }
      rewrite <- app_assoc in Heq. simpl in Heq. rewrite Heq.
      exists (it :: kept), con'. split.
      * simpl. by rewrite <- app_assoc.
      * by constructor.
Qed.

Lemma remove_selected_sync (w : MainWindow) :
  in_sync w →
  ∃ w', remove_selected w = Ok w'
        ∧ in_sync w'
        ∧ queue_list w' `sublist_of` queue_list w
        ∧ threadpool w' = threadpool w
        ∧ start_btn w' = start_btn w
        ∧ stop_btn w' = stop_btn w
        ∧ threads_spin w' = threads_spin w
        ∧ global_progress w' = global_progress w.
Proof.
  intros [Hurls Hnd]. unfold remove_selected.
  destruct (remove_rows_in_step (queue_list w) [] (console w)) as (kept & con' & Heq & Hsub).
  { simpl. fold (item_urls w). by rewrite Hurls. }
  simpl in Heq. fold (item_urls w) in Heq. rewrite Hurls in Heq. rewrite Heq.
  eexists. split; [reflexivity|]. simpl. repeat split; try done.
  apply (sublist_NoDup _ (queued_urls w)); [done|]. simpl. rewrite <- Hurls. by apply fmap_sublist.
Qed.

(** ** Resetting *)

Lemma reset_all_queue (res : StandardButton) (checked : bool) (p : Process) :
  res ≠ Cancel →
  queue_list (win (reset_all res checked p)) = []
  ∧ queued_urls (win (reset_all res checked p)) = []
  ∧ console (win (reset_all res checked p)) = []
  ∧ downloaded_files (win (reset_all res checked p)) = [].
Proof.
  intros Hres. unfold reset_all. by destruct res.
Qed.

Lemma delete_file_disk (disk : FileSystem) (w : MainWindow) (n : Z) (f : string) :
  ∃ disk' w' n',
    delete_file (disk, w, n) f = (disk', w', n')
    ∧ files disk' = files disk ∖ ({[ f ]} ∖ undeletable disk)
    ∧ undeletable disk' = undeletable disk.
Proof.
  unfold delete_file, isfile, os_remove.
  destruct (decide (f ∈ files disk)) as [Hin|Hout].
  - rewrite (bool_decide_eq_true_2 _ Hin). simpl.
    destruct (decide (f ∈ undeletable disk)) as [Hun|Hdel].
    + rewrite (bool_decide_eq_true_2 _ Hun). simpl.
      do 3 eexists. split; [reflexivity|]. split; [set_solver|done].
    + rewrite (bool_decide_eq_false_2 _ Hdel). simpl.
      do 3 eexists. split; [reflexivity|]. simpl. split; [set_solver|done].
  - rewrite (bool_decide_eq_false_2 _ Hout).
    do 3 eexists. split; [reflexivity|]. split; [set_solver|done].
Qed.

Lemma foldl_delete_file_disk (l : list string) :
  ∀ (disk : FileSystem) (w : MainWindow) (n : Z),
  ∃ disk' w' n',
    foldl delete_file (disk, w, n) l = (disk', w', n')
    ∧ files disk' = files disk ∖ (list_to_set l ∖ undeletable disk)
    ∧ undeletable disk' = undeletable disk.
Proof.
  induction l as [|f l IH]; intros disk w n; cbn [foldl].
  - do 3 eexists. split; [reflexivity|]. split; [set_solver|done].
  - destruct (delete_file_disk disk w n f) as (disk1 & w1 & n1 & -> & Hf1 & Hu1).
    destruct (IH disk1 w1 n1) as (disk2 & w2 & n2 & -> & Hf2 & Hu2).
    do 3 eexists. split; [reflexivity|].
    rewrite Hf2, Hu2, Hf1, Hu1. split; [set_solver|done].
Qed.

Lemma reset_all_files (res : StandardButton) (checked : bool) (p : Process) :
  files (fs (reset_all res checked p)) =
    if bool_decide (res = Yes) && checked
    then files (fs p) ∖ (list_to_set (downloaded_files (win p)) ∖ undeletable (fs p))
    else files (fs p).
Proof.
  unfold reset_all. destruct res; simpl; try done.
  destruct checked; simpl; [|done].
  destruct (foldl_delete_file_disk (downloaded_files (win p)) (fs p) (win p) 0)
    as (disk' & w' & n' & -> & Hf & _).
  done.
Qed.

(** C9.  The three answers of the reset dialog.  Cancel changes nothing
    at all.  No empties the queue, the url list, the console and the
    list of downloaded files and puts the progress bar back to 0, and
    leaves the disk alone.  So does Yes with the box unchecked.  A file
    leaves the disk only under Yes with the box checked, and only if it
    is a path recorded in [downloaded_files]; no answer creates a
    file; and under Yes with the box checked every recorded path that
    [os.remove] accepts is gone afterwards. *)
Theorem reset_all_three_way (p : Process) (checked : bool) :
  0 ≤ maximum (global_progress (win p)) →
  reset_all Cancel checked p = p
  ∧ (let p' := reset_all No checked p in
     queue_list (win p') = [] ∧ queued_urls (win p') = [] ∧ console (win p') = []
     ∧ downloaded_files (win p') = [] ∧ value (global_progress (win p')) = 0
     ∧ fs p' = fs p)
  ∧ fs (reset_all Yes false p) = fs p
  ∧ (∀ res f, f ∈ files (fs p) → f ∉ files (fs (reset_all res checked p)) →
       res = Yes ∧ checked = true ∧ f ∈ downloaded_files (win p))
  ∧ (∀ res, files (fs (reset_all res checked p)) ⊆ files (fs p))
  ∧ (∀ f, f ∈ downloaded_files (win p) → f ∉ undeletable (fs p) →
       f ∉ files (fs (reset_all Yes true p))).
Proof.
  intros Hmax. split; [done|]. split; [|split; [done|]].
  - simpl. repeat split; try done.
    unfold setValue. simpl.
    destruct (maximum (global_progress (win p)) <? 0) eqn:E; [lia|done].
  - split; [|split].
    + intros res f Hin Hout. rewrite reset_all_files in Hout.
      destruct res, checked; simpl in Hout; try done.
      repeat split; try done. set_solver.
    + intros res. rewrite reset_all_files.
      destruct (bool_decide (res = Yes) && checked); set_solver.
    + intros f Hf Hdel. rewrite reset_all_files. simpl. set_solver.
Qed.

(** C10.  Adding links, removing the selected rows and resetting each
    keep the url list and the widget in step: the list holds exactly the
    urls of the rows, in row order and without repetition. *)
Theorem queue_operations_keep_sync (p : Process) :
  in_sync (win p) →
  (∀ links, in_sync (_add_links links (win p)))
  ∧ (∃ w', remove_selected (win p) = Ok w' ∧ in_sync w')
  ∧ (∀ res checked, in_sync (win (reset_all res checked p))).
Proof.
  intros Hsync. split; [|split].
  - intros links. by apply add_links_sync.
  - destruct (remove_selected_sync (win p) Hsync) as (w' & Heq & Hs & _). eauto.
  - intros res checked. destruct (decide (res = Cancel)) as [->|Hres]; [done|].
    destruct (reset_all_queue res checked p Hres) as (Hq & Hu & _).
    split; unfold item_urls; rewrite ?Hq, Hu; [done | apply NoDup_nil_2].
Qed.

(** ** The slots *)

Lemma find_update_first_same u f items :
  (∀ it, item_url (f it) = item_url it) →
  List.find (fun it => String.eqb (item_url it) u) (update_first u f items)
  = f <$> List.find (fun it => String.eqb (item_url it) u) items.
Proof.
  intros Hf. induction items as [|it rest IH]; simpl; [done|].
  fold (item_url it). destruct (String.eqb (item_url it) u) eqn:E; simpl.
  - by rewrite Hf, E.
  - by rewrite E, IH.
Qed.

Lemma find_update_first_other u u' f items :
  (∀ it, item_url (f it) = item_url it) → u' ≠ u →
  List.find (fun it => String.eqb (item_url it) u') (update_first u f items)
  = List.find (fun it => String.eqb (item_url it) u') items.
Proof.
  intros Hf Hne. induction items as [|it rest IH]; simpl; [done|].
  fold (item_url it). destruct (String.eqb (item_url it) u) eqn:E; simpl.
  - apply String.eqb_eq in E. rewrite Hf.
    assert (String.eqb (item_url it) u' = false) as -> by (apply String.eqb_neq; congruence).
    done.
  - by rewrite IH.
Qed.

Lemma find_present u items :
  u ∈ map item_url items →
  ∃ it, List.find (fun it => String.eqb (item_url it) u) items = Some it.
Proof.
  induction items as [|it rest IH]; simpl; intros Hin.
  - by apply elem_of_nil in Hin.
  - destruct (String.eqb (item_url it) u) eqn:E; [eauto|].
    apply String.eqb_neq in E.
    apply elem_of_cons in Hin as [Hu|Hin]; [congruence|]. by apply IH.
Qed.

Lemma update_first_filter_other u f items :
  (∀ it, item_url (f it) = item_url it) →
  filter (fun it => item_url it ≠ u) (update_first u f items)
  = filter (fun it => item_url it ≠ u) items.
Proof.
  intros Hf. induction items as [|it rest IH]; simpl; [done|].
  fold (item_url it). destruct (String.eqb (item_url it) u) eqn:E.
  - apply String.eqb_eq in E.
    rewrite !filter_cons_False; [done| |]; intros Hne; apply Hne; [done|]. by rewrite Hf.
  - rewrite !filter_cons, IH. done.
Qed.

Lemma update_first_filepaths u f items :
  (∀ it, filepath (data (f it)) = filepath (data it)) →
  map (fun it => filepath (data it)) (update_first u f items)
  = map (fun it => filepath (data it)) items.
Proof.
  intros Hf. induction items as [|it rest IH]; simpl; [done|].
  destruct (String.eqb (url (data it)) u); simpl; [by rewrite Hf | by rewrite IH].
Qed.

(** C4, as the code has it.  A progress event stores the incoming
    percent as it is, in the first row that has the url: the stored
    value is the last one reported, whatever it was before, and the rows
    of other urls keep theirs. *)
Theorem on_item_progress_stores_percent (w : MainWindow) (u : string) (percent : Z) :
  u ∈ item_urls w →
  progress_of u (_on_item_progress u percent w) = Some percent
  ∧ status_of u (_on_item_progress u percent w) = status_of u w
  ∧ (∀ u', u' ≠ u → progress_of u' (_on_item_progress u percent w) = progress_of u' w).
Proof.
  intros Hin. destruct (find_present u (queue_list w) Hin) as [it Hit].
  unfold progress_of, status_of, item_of, _on_item_progress. simpl.
  split; [|split].
  - rewrite find_update_first_same by done. by rewrite Hit.
  - rewrite find_update_first_same by done. by rewrite Hit.
  - intros u' Hne. by rewrite find_update_first_other.
Qed.

(** C6, as the code has it.  The aggregate counter moves only on a
    [finished] event, by one unit and never past the batch total; a
    status event, whatever the status, and a progress event leave it
    where it is. *)
Theorem batch_counter_moves_on_finished_only (p : Process) (u : string) :
  -1 ≤ value (global_progress (win p)) →
  0 ≤ maximum (global_progress (win p)) →
  (∀ st, global_progress (win (deliver (item_status u st) p)) = global_progress (win p))
  ∧ (∀ percent, global_progress (win (deliver (item_progress u percent) p))
                = global_progress (win p))
  ∧ (∀ path,
       value (global_progress (win (deliver (item_finished u path) p)))
       = Z.min (maximum (global_progress (win p))) (value (global_progress (win p)) + 1)
       ∧ maximum (global_progress (win (deliver (item_finished u path) p)))
         = maximum (global_progress (win p))).
Proof.
  intros Hval Hmax. split; [done|]. split; [done|].
  intros path. simpl. unfold _on_item_finished.
  destruct (reconcile _ _ _); simpl; unfold setValue; simpl;
    destruct (_ && _) eqn:E; simpl; try done; split; try done; lia.
Qed.

(** C7, as the code has it.  On [finished(url, path)]: a reported path
    that is a file is appended to [downloaded_files]; otherwise the file
    of the same base name in the download directory is appended if it
    exists; otherwise, and for an empty path, nothing is appended.  In
    every case the console is left as it was and no row has its
    [filepath] written. *)
Theorem on_item_finished_reconciles (disk : FileSystem) (u path : string) (w : MainWindow) :
  let w' := _on_item_finished disk u path w in
  let cand := path_join (download_dir w) (basename path) in
  (path ≠ "" → isfile disk path = true →
   downloaded_files w' = downloaded_files w ++ [path])
  ∧ (path ≠ "" → isfile disk path = false → isfile disk cand = true →
     downloaded_files w' = downloaded_files w ++ [cand])
  ∧ (path = "" ∨ (isfile disk path = false ∧ isfile disk cand = false) →
     downloaded_files w' = downloaded_files w)
  ∧ console w' = console w
  ∧ map (fun it => filepath (data it)) (queue_list w')
    = map (fun it => filepath (data it)) (queue_list w).
Proof.
  intros w' cand. subst w' cand. unfold _on_item_finished, reconcile.
  split; [|split; [|split; [|split]]].
  - intros Hne Hfile. apply String.eqb_neq in Hne. rewrite Hne, Hfile. done.
  - intros Hne Hfile Hcand. apply String.eqb_neq in Hne. rewrite Hne, Hfile, Hcand. done.
  - intros [->|[Hfile Hcand]]; [done|].
    rewrite Hfile, Hcand. by destruct (negb _).
  - by destruct (if negb _ then _ else _).
  - destruct (if negb _ then _ else _); simpl; by apply update_first_filepaths.
Qed.

(** C4 fails as stated: the worker of the sample fetch reports 50 and
    then 0 (the total size is no longer known), and the stored percent
    follows it down; a reported 250 is stored as 250. *)
Lemma progress_is_not_clamped :
  let signals := (run exact_percent true demo_worker fetch_losing_total).1 in
  progress_of demo_url (win (deliver_all (take 2 signals) demo)) = Some 50
  ∧ progress_of demo_url (win (deliver_all signals demo)) = Some 0
  ∧ progress_of demo_url (_on_item_progress demo_url 250 (win demo)) = Some 250
  ∧ ¬ (50 ≤ 0) ∧ ¬ (250 ≤ 100).
Proof. repeat split; try (vm_compute; reflexivity); lia. Qed.

Lemma demo_in_sync : in_sync (win demo).
Proof. split; [reflexivity|]. apply NoDup_singleton. Qed.

Lemma on_item_progress_stores_percent_witness :
  progress_of demo_url (_on_item_progress demo_url 30 (win demo)) = Some 30
  ∧ status_of demo_url (_on_item_progress demo_url 30 (win demo)) = status_of demo_url (win demo)
  ∧ (∀ u', u' ≠ demo_url →
       progress_of u' (_on_item_progress demo_url 30 (win demo)) = progress_of u' (win demo)).
Proof.
  apply (on_item_progress_stores_percent (win demo) demo_url 30).
  vm_compute. apply list_elem_of_here.
Defined.

(** C6 fails as stated: a batch of one item whose download fails ends
    with the item in ['error'], every pool idle and no signal pending,
    and the counter still at 0 of 1. *)
Lemma failed_item_leaves_counter :
  ∃ p, execs exact_percent
         [UserStart;
          WorkerEmits 0 0 fetch_failing 0; WorkerEmits 0 0 fetch_failing 1;
          WorkerEmits 0 0 fetch_failing 2; WorkerReturns 0 0;
          Deliver; Deliver; Deliver] demo = Some p
       ∧ status_of demo_url (win p) = Some "error"
       ∧ pools p = [{| maxThreadCount := 3; activeThreads := []; runQueue := [] |}]
       ∧ events p = []
       ∧ global_progress (win p) = {| value := 0; maximum := 1 |}.
Proof. eexists. split; [vm_compute; reflexivity|]. by vm_compute. Qed.

Lemma batch_counter_moves_on_finished_only_witness :
  let p := (start_downloads demo).1 in
  (∀ st, global_progress (win (deliver (item_status demo_url st) p)) = global_progress (win p))
  ∧ (∀ percent, global_progress (win (deliver (item_progress demo_url percent) p))
                = global_progress (win p))
  ∧ (∀ path,
       value (global_progress (win (deliver (item_finished demo_url path) p)))
       = Z.min (maximum (global_progress (win p))) (value (global_progress (win p)) + 1)
       ∧ maximum (global_progress (win (deliver (item_finished demo_url path) p)))
         = maximum (global_progress (win p))).
Proof.
  apply (batch_counter_moves_on_finished_only (start_downloads demo).1 demo_url).
  - vm_compute. discriminate.
  - vm_compute. discriminate.
Defined.

(** C7 fails as stated: a reported path that is no file, and whose base
    name is no file of the download directory, is dropped without a
    line on the console. *)
Lemma unresolved_path_logs_nothing :
  let w' := _on_item_finished demo_disk demo_url "/tmp/video.mp4" (win demo) in
  isfile demo_disk "/tmp/video.mp4" = false
  ∧ isfile demo_disk (path_join (download_dir (win demo)) (basename "/tmp/video.mp4")) = false
  ∧ downloaded_files w' = downloaded_files (win demo)
  ∧ ¬ (∃ line, console w' = console (win demo) ++ [line]).
Proof.
  repeat split; try (vm_compute; reflexivity).
  intros [line Hline]. apply (f_equal length) in Hline.
  rewrite length_app in Hline. vm_compute in Hline. discriminate.
Qed.

Lemma on_item_finished_reconciles_witness :
  let w := win demo in
  let w' := _on_item_finished demo_disk demo_url "/tmp/a.mp4" w in
  let cand := path_join (download_dir w) (basename "/tmp/a.mp4") in
  ("/tmp/a.mp4" ≠ "" ∧ isfile demo_disk "/tmp/a.mp4" = false ∧ isfile demo_disk cand = true)
  ∧ downloaded_files w' = downloaded_files w ++ ["/downloads/a.mp4"]
  ∧ console w' = console w.
Proof.
  pose proof (on_item_finished_reconciles demo_disk demo_url "/tmp/a.mp4" (win demo))
    as (_ & Hcand & _ & Hcon & _).
  assert (H : "/tmp/a.mp4" ≠ "" ∧ isfile demo_disk "/tmp/a.mp4" = false
              ∧ isfile demo_disk (path_join (download_dir (win demo)) (basename "/tmp/a.mp4")) = true).
  { split; [discriminate|]. split; vm_compute; reflexivity. }
  split; [exact H|]. destruct H as (H1 & H2 & H3). split; [exact (Hcand H1 H2 H3) | exact Hcon].
Defined.

Lemma add_links_idempotent_witness :
  let w1 := _add_links [demo_url] (win demo) in
  queue_list w1 = queue_list (win demo)
  ∧ length (filter (fun it => item_url it = demo_url) (queue_list (_add_links [demo_url] w1))) = 1%nat.
Proof.
  pose proof (add_links_idempotent (win demo) demo_url demo_in_sync) as (Hin & _ & _ & _ & _ & _ & Hone).
  split; [|exact Hone]. apply Hin. vm_compute. apply list_elem_of_here.
Defined.

Lemma start_downloads_rejects_witness :
  ∃ box, start_downloads (initial "/downloads" demo_disk true 4)
         = (initial "/downloads" demo_disk true 4, Some box).
Proof. apply start_downloads_rejects. left. reflexivity. Defined.

Lemma queue_operations_keep_sync_witness :
  (∀ links, in_sync (_add_links links (win demo)))
  ∧ (∃ w', remove_selected (win demo) = Ok w' ∧ in_sync w')
  ∧ (∀ res checked, in_sync (win (reset_all res checked demo))).
Proof. apply (queue_operations_keep_sync demo). split; [reflexivity | apply NoDup_singleton]. Defined.

Lemma reset_all_three_way_witness :
  reset_all Cancel true demo = demo
  ∧ fs (reset_all No true demo) = fs demo
  ∧ queue_list (win (reset_all No true demo)) = [].
Proof.
  assert (Hmax : 0 ≤ maximum (global_progress (win demo))) by (vm_compute; discriminate).
  pose proof (reset_all_three_way demo true Hmax) as (Hcancel & Hno & _).
  split; [exact Hcancel|]. destruct Hno as (Hq & _ & _ & _ & _ & Hfs). split; [exact Hfs | exact Hq].
Defined.

(** ** The executor *)

Lemma bind_emits {A B} (P : Signal → Prop) (m : Emitting A) (k : A → Emitting B) :
  Forall P m.1 → (∀ a, Forall P (k a).1) → Forall P (bind m k).1.
Proof.
  destruct m as [out [a|e]]; simpl; intros Hm Hk; [|done].
  specialize (Hk a). destruct (k a) as [out' r]. simpl in *. by apply Forall_app.
Qed.

Lemma try_except_emits {A} (P : Signal → Prop) (body : Emitting A) handler :
  Forall P body.1 → (∀ e, Forall P (handler e).1) → Forall P (try_except body handler).1.
Proof.
  destruct body as [out [a|e]]; simpl; intros Hm Hk; [done|].
  specialize (Hk e). destruct (handler e) as [out' r]. simpl in *. by apply Forall_app.
Qed.

Lemma try_except_returns (body : Emitting unit) handler :
  (∀ e, (handler e).2 = Ok tt) → (try_except body handler).2 = Ok tt.
Proof.
  destruct body as [out [[]|e]]; simpl; intros Hk; [done|].
  specialize (Hk e). by destruct (handler e) as [out' r].
Qed.

Lemma emit_item_finished_emits u v :
  Forall (signal_of_worker u) (emit_item_finished u v).1.
Proof. destruct v; simpl; repeat constructor. Qed.

Lemma progress_hook_emits fp u d :
  Forall (signal_of_worker u) (progress_hook fp u d).1.
Proof.
  unfold progress_hook. apply try_except_emits; [|intros e; repeat constructor].
  destruct (py_eq_str _ "downloading"); [|destruct (py_eq_str _ "finished")].
  - apply bind_emits.
    + destruct (truthy _); [|constructor].
      unfold hook_percent. by repeat case_match.
    + intros percent. repeat constructor.
  - apply bind_emits; [repeat constructor|]. intros _.
    apply bind_emits; [repeat constructor|]. intros _.
    apply emit_item_finished_emits.
  - constructor.
Qed.

Lemma progress_hook_returns fp u d : (progress_hook fp u d).2 = Ok tt.
Proof. unfold progress_hook. by apply try_except_returns. Qed.

Lemma fetch_calls_spec fp u cs :
  ∃ out, fetch_calls fp u cs = (out, Ok tt) ∧ Forall (signal_of_worker u) out.
Proof.
  induction cs as [|c cs (out & IH & Hout)]; simpl.
  - exists []. by split.
  - assert (∃ o, fetch_call fp u c = (o, Ok tt) ∧ Forall (signal_of_worker u) o)
      as (o & -> & Ho).
    { destruct c as [d| | | |]; simpl; try (eexists; split; [reflexivity|]; repeat constructor).
      pose proof (progress_hook_emits fp u d) as He.
      pose proof (progress_hook_returns fp u d) as Hr.
      destruct (progress_hook fp u d) as [o r]. simpl in *. subst r. eauto. }
    simpl. rewrite IH. eexists. split; [reflexivity|]. by apply Forall_app.
Qed.

(** What [run] emits, and that it returns, on each of its ways out. *)
Lemma run_spec fp (ydl : bool) (wk : DownloadWorker) (f : Fetch) :
  ∃ out,
    Forall (signal_of_worker (w_url wk)) out
    ∧ run fp ydl wk f =
      (append_console ("Starting download: " +:+ w_url wk) ::
         if ydl then
           out ++
           match fetch_exception f with
           | None => []
           | Some e =>
               [append_console ("Error downloading " +:+ w_url wk +:+ ": " +:+ exc_str e
                                +:+ String "010"%char (exc_traceback e));
                item_status (w_url wk) "error"]
           end
         else
           [append_console "yt-dlp is not available. Skipping.";
            item_status (w_url wk) "missing yt-dlp"],
       Ok tt).
Proof.
  destruct (fetch_calls_spec fp (w_url wk) (calls f)) as (out & Hcalls & Hout).
  exists (out ++ match raised f with
                 | None => [item_status (w_url wk) "done"]
                 | Some _ => []
                 end).
  split.
  { apply Forall_app. split; [done|]. destruct (raised f); [constructor|].
    apply Forall_cons_2; [|constructor]. simpl. auto. }
  unfold run, with_YoutubeDL, ydl_download, fetch_exception. destruct ydl; simpl; [|done].
  rewrite Hcalls. simpl.
  destruct (raised f) as [e|], (exit_raised f) as [e'|]; simpl;
    rewrite ?app_nil_r, <- ?app_assoc; reflexivity.
Qed.

Lemma run_emits fp ydl wk f : Forall (signal_of_worker (w_url wk)) (run fp ydl wk f).1.
Proof.
  destruct (run_spec fp ydl wk f) as (out & Hout & ->). simpl.
  constructor; [done|]. destruct ydl.
  - apply Forall_app. split; [done|].
    destruct (fetch_exception f); repeat apply Forall_cons_2; simpl; auto.
  - repeat apply Forall_cons_2; simpl; auto.
Qed.

(** ** Delivery of a worker's signals *)

Lemma deliver_worker_signal (u : string) (s : Signal) (p : Process) :
  signal_of_worker u s →
  pools (deliver s p) = pools p
  ∧ events (deliver s p) = events p
  ∧ item_urls (win (deliver s p)) = item_urls (win p)
  ∧ filter (fun it => item_url it ≠ u) (queue_list (win (deliver s p)))
    = filter (fun it => item_url it ≠ u) (queue_list (win p)).
Proof.
  destruct s as [t|u' pct|u' st|u' path|b]; simpl; intros Hs; try done.
  - subst u'. repeat split; try done.
    + by apply update_first_urls.
    + by apply update_first_filter_other.
  - destruct Hs as [-> _]. repeat split; try done.
    + by apply update_first_urls.
    + by apply update_first_filter_other.
  - subst u'. unfold _on_item_finished.
    destruct (reconcile _ _ _); simpl; repeat split; try done;
      (by apply update_first_urls) || (by apply update_first_filter_other).
Qed.

Lemma deliver_all_worker_signals (u : string) (signals : list Signal) :
  ∀ p, Forall (signal_of_worker u) signals →
  pools (deliver_all signals p) = pools p
  ∧ events (deliver_all signals p) = events p
  ∧ item_urls (win (deliver_all signals p)) = item_urls (win p)
  ∧ filter (fun it => item_url it ≠ u) (queue_list (win (deliver_all signals p)))
    = filter (fun it => item_url it ≠ u) (queue_list (win p)).
Proof.
  induction signals as [|s signals IH]; intros p Hall; [done|].
  apply Forall_cons in Hall as [Hs Hall].
  destruct (deliver_worker_signal u s p Hs) as (H1 & H2 & H3 & H4).
  destruct (IH (deliver s p) Hall) as (I1 & I2 & I3 & I4).
  unfold deliver_all in *. simpl. rewrite I1, I2, I3, I4. done.
Qed.

Lemma deliver_status_sets (u st : string) (p : Process) :
  u ∈ item_urls (win p) →
  status_of u (win (deliver (item_status u st) p)) = Some st.
Proof.
  intros Hin. destruct (find_present u (queue_list (win p)) Hin) as [it Hit].
  unfold status_of, item_of. simpl.
  rewrite find_update_first_same by done. by rewrite Hit.
Qed.

(** C2.  When the fetch layer raises, [run] returns normally; its last two
    signals are a console line with the error and the status ['error']
    for its url.  Once the GUI thread has delivered the signals of that
    run, the row of the url is in ['error'], while the thread pools, the
    pending signals and the rows of the other urls are as they were; and
    when the worker leaves its pool the other active workers stay. *)
Theorem run_contains_fetch_exception (float_percent : Z → Z → Z)
    (wk : DownloadWorker) (f : Fetch) (e : Exception) (p : Process) :
  fetch_exception f = Some e →
  let u := w_url wk in
  let signals := (run float_percent true wk f).1 in
  let p' := deliver_all signals p in
  (run float_percent true wk f).2 = Ok tt
  ∧ (∃ before,
       signals = before ++
         [append_console ("Error downloading " +:+ u +:+ ": " +:+ exc_str e
                          +:+ String "010"%char (exc_traceback e));
          item_status u "error"])
  ∧ (u ∈ item_urls (win p) → status_of u (win p') = Some "error")
  ∧ pools p' = pools p
  ∧ events p' = events p
  ∧ filter (fun it => item_url it ≠ u) (queue_list (win p'))
    = filter (fun it => item_url it ≠ u) (queue_list (win p))
  ∧ (∀ pl k, ∃ started,
       activeThreads (pool_finish k pl) = delete k (activeThreads pl) ++ started).
Proof.
  intros Hraised u signals p'.
  pose proof (run_emits float_percent true wk f) as Hemits.
  destruct (run_spec float_percent true wk f) as (out & Hout & Hrun).
  rewrite Hraised in Hrun.
  destruct (deliver_all_worker_signals u signals p Hemits) as (Hpools & Hevents & Hurls & Hrows).
  split; [by rewrite Hrun|].
  split.
  { subst signals. rewrite Hrun. simpl.
    exists (append_console ("Starting download: " +:+ w_url wk) :: out). done. }
  split.
  { intros Hin. subst p' signals.
    set (line := append_console ("Error downloading " +:+ u +:+ ": " +:+ exc_str e
                                 +:+ String "010"%char (exc_traceback e))).
    set (sigs := append_console ("Starting download: " +:+ w_url wk) :: out ++ [line]).
    assert (Hsplit : (run float_percent true wk f).1 = sigs ++ [item_status u "error"]).
    { rewrite Hrun. subst sigs line. simpl. by rewrite <- app_assoc. }
    assert (Hsigs : Forall (signal_of_worker u) sigs).
    { subst sigs. constructor; [done|]. apply Forall_app. split; [exact Hout|].
      by repeat constructor. }
    clearbody sigs. rewrite Hsplit. unfold deliver_all. rewrite foldl_app. simpl.
    apply deliver_status_sets.
    destruct (deliver_all_worker_signals u sigs p Hsigs) as (_ & _ & Hu & _).
    unfold deliver_all in Hu. by rewrite Hu. }
  do 3 (split; [done|]).
  intros pl k. eexists. reflexivity.
Qed.

Lemma run_contains_fetch_exception_witness :
  (run exact_percent true demo_worker fetch_failing).2 = Ok tt
  ∧ status_of demo_url
      (win (deliver_all (run exact_percent true demo_worker fetch_failing).1 demo))
    = Some "error".
Proof.
  pose proof (run_contains_fetch_exception exact_percent demo_worker fetch_failing
                {| exc_str := "ERROR: unable to download"; exc_traceback := "Traceback" |}
                demo eq_refl) as (Hret & _ & Hstatus & _).
  split; [exact Hret|]. apply Hstatus. vm_compute. apply list_elem_of_here.
Defined.

(** ** The pool *)

Lemma tryToStartMoreThreads_bounded (pl : QThreadPool) :
  pool_bounded pl → pool_bounded (tryToStartMoreThreads pl).
Proof.
  unfold pool_bounded, tryToStartMoreThreads. simpl. intros H.
  rewrite length_app, length_take. lia.
Qed.

Lemma pool_finish_bounded (k : nat) (pl : QThreadPool) :
  pool_bounded pl → pool_bounded (pool_finish k pl).
Proof.
  intros H. apply tryToStartMoreThreads_bounded. unfold pool_bounded in *. simpl.
  pose proof (sublist_length _ _ (sublist_delete (activeThreads pl) k)). lia.
Qed.

Lemma pool_start_bounded (wk : DownloadWorker) (pl : QThreadPool) :
  pool_bounded pl → pool_bounded (pool_start wk pl).
Proof.
  unfold pool_bounded, pool_start. intros H.
  destruct (Z.ltb_spec (Z.of_nat (length (activeThreads pl))) (maxThreadCount pl)); simpl; [|done].
  rewrite length_app. simpl. lia.
Qed.

Lemma pool_start_limit (wk : DownloadWorker) (pl : QThreadPool) :
  maxThreadCount (pool_start wk pl) = maxThreadCount pl.
Proof. unfold pool_start. by destruct (_ <? _). Qed.

Lemma setMaxThreadCount_idle (n : Z) (pl : QThreadPool) :
  pool_idle pl →
  setMaxThreadCount n pl = {| maxThreadCount := n; activeThreads := []; runQueue := [] |}.
Proof.
  intros [Ha Hq]. unfold setMaxThreadCount, tryToStartMoreThreads. simpl.
  rewrite Ha, Hq. simpl. by rewrite take_nil, drop_nil.
Qed.

(** When a worker of a full pool returns, the head of the run queue
    gets its thread. *)
Lemma pool_finish_promotes (k : nat) (pl : QThreadPool) (wk : DownloadWorker)
    (q : list DownloadWorker) :
  Z.of_nat (length (activeThreads pl)) = maxThreadCount pl →
  is_Some (activeThreads pl !! k) →
  runQueue pl = wk :: q →
  pool_finish k pl = {| maxThreadCount := maxThreadCount pl;
                        activeThreads := delete k (activeThreads pl) ++ [wk];
                        runQueue := q |}.
Proof.
  intros Hfull Hk Hq. unfold pool_finish, tryToStartMoreThreads. simpl.
  rewrite length_delete by done. rewrite Hq.
  apply lookup_lt_is_Some in Hk.
  replace (Z.to_nat (maxThreadCount pl - Z.of_nat (length (activeThreads pl) - 1)))
    with 1%nat by lia.
  simpl. by rewrite take_0, drop_0.
Qed.

(** Submitting to a pool that is full only lengthens its queue. *)
Lemma foldl_pool_start_full (ws : list DownloadWorker) :
  ∀ (n : Z) (a q : list DownloadWorker),
    n ≤ Z.of_nat (length a) →
    foldl (fun pl wk => pool_start wk pl)
          {| maxThreadCount := n; activeThreads := a; runQueue := q |} ws
    = {| maxThreadCount := n; activeThreads := a; runQueue := q ++ ws |}.
Proof.
  induction ws as [|wk ws IH]; intros n a q Hfull; simpl.
  - by rewrite app_nil_r.
  - unfold pool_start at 2. simpl.
    destruct (Z.ltb_spec (Z.of_nat (length a)) n); [lia|].
    rewrite IH by done. by rewrite <- app_assoc.
Qed.

(** Submitting to a pool with free threads and an empty queue: the
    first ones get the free threads, the rest wait. *)
Lemma foldl_pool_start_room (ws : list DownloadWorker) :
  ∀ (n : Z) (a : list DownloadWorker),
    Z.of_nat (length a) ≤ n →
    foldl (fun pl wk => pool_start wk pl)
          {| maxThreadCount := n; activeThreads := a; runQueue := [] |} ws
    = {| maxThreadCount := n;
         activeThreads := a ++ take (Z.to_nat (n - Z.of_nat (length a))) ws;
         runQueue := drop (Z.to_nat (n - Z.of_nat (length a))) ws |}.
Proof.
  induction ws as [|wk ws IH]; intros n a Hroom; simpl.
  - by rewrite take_nil, drop_nil, app_nil_r.
  - unfold pool_start at 2. simpl.
    destruct (Z.ltb_spec (Z.of_nat (length a)) n) as [Hlt|Hge].
    + rewrite IH by (rewrite length_app; simpl; lia).
      rewrite length_app. simpl.
      replace (Z.to_nat (n - Z.of_nat (length a)))
        with (S (Z.to_nat (n - Z.of_nat (length a + 1)))) by lia.
      simpl. by rewrite <- app_assoc.
    + rewrite foldl_pool_start_full by lia.
      replace (Z.to_nat (n - Z.of_nat (length a))) with 0%nat by lia.
      simpl. by rewrite app_nil_r.
Qed.

(** ** Frames: what an operation leaves alone *)

Lemma foldl_add_link_frame (links : list string) :
  ∀ (w : MainWindow) (n : Z),
    let w' := (foldl add_link (w, n) links).1 in
    threadpool w' = threadpool w ∧ start_btn w' = start_btn w
    ∧ stop_btn w' = stop_btn w ∧ threads_spin w' = threads_spin w
    ∧ global_progress w' = global_progress w.
Proof.
  induction links as [|l links IH]; intros w n; cbn [foldl]; [done|].
  destruct (decide (l ∈ queued_urls w)) as [Hin|Hout].
  - rewrite add_link_present by done. apply IH.
  - destruct (add_link_absent w n l Hout) as (w1 & -> & _ & _ & _ & H1 & H2 & H3 & H4 & H5).
    destruct (IH w1 (n + 1)) as (I1 & I2 & I3 & I4 & I5).
    simpl. rewrite I1, I2, I3, I4, I5. done.
Qed.

Lemma add_links_frame (links : list string) (w : MainWindow) :
  let w' := _add_links links w in
  threadpool w' = threadpool w ∧ start_btn w' = start_btn w
  ∧ stop_btn w' = stop_btn w ∧ threads_spin w' = threads_spin w
  ∧ global_progress w' = global_progress w.
Proof.
  pose proof (foldl_add_link_frame links w 0) as H. unfold _add_links.
  by destruct (foldl add_link (w, 0) links) as [w' n].
Qed.

Lemma delete_file_frame (disk : FileSystem) (w : MainWindow) (n : Z) (f : string) :
  let w' := (delete_file (disk, w, n) f).1.2 in
  threadpool w' = threadpool w ∧ start_btn w' = start_btn w
  ∧ threads_spin w' = threads_spin w ∧ global_progress w' = global_progress w.
Proof.
  unfold delete_file. destruct (isfile disk f); [|done]. by destruct (os_remove f disk).
Qed.

Lemma foldl_delete_file_frame (l : list string) :
  ∀ (disk : FileSystem) (w : MainWindow) (n : Z),
    let w' := (foldl delete_file (disk, w, n) l).1.2 in
    threadpool w' = threadpool w ∧ start_btn w' = start_btn w
    ∧ threads_spin w' = threads_spin w ∧ global_progress w' = global_progress w.
Proof.
  induction l as [|f l IH]; intros disk w n; cbn [foldl]; [done|].
  pose proof (delete_file_frame disk w n f) as H.
  destruct (delete_file (disk, w, n) f) as [[d1 w1] n1]. simpl in H.
  destruct H as (H1 & H2 & H3 & H4). destruct (IH d1 w1 n1) as (I1 & I2 & I3 & I4).
  cbv zeta. rewrite I1, I2, I3, I4. done.
Qed.

Lemma reset_all_frame (res : StandardButton) (checked : bool) (p : Process) :
  let p' := reset_all res checked p in
  threadpool (win p') = threadpool (win p)
  ∧ start_btn (win p') = start_btn (win p)
  ∧ threads_spin (win p') = threads_spin (win p)
  ∧ maximum (global_progress (win p')) = maximum (global_progress (win p))
  ∧ (res ≠ Cancel → 0 ≤ maximum (global_progress (win p)) → value (global_progress (win p')) = 0)
  ∧ pools p' = pools p ∧ events p' = events p.
Proof.
  assert (Hbar : ∀ bar, maximum (setValue 0 bar) = maximum bar
                        ∧ (0 ≤ maximum bar → value (setValue 0 bar) = 0)).
  { intros bar. unfold setValue. destruct (_ && _) eqn:E; simpl; [|done].
    split; [done|]. intros Hmax. apply andb_prop in E as [E _].
    apply orb_prop in E as [E|E]; lia. }
  unfold reset_all. destruct res; simpl; try done.
  - destruct checked; simpl.
    + pose proof (foldl_delete_file_frame (downloaded_files (win p)) (fs p) (win p) 0) as H.
      destruct (foldl delete_file _ _) as [[disk w] removed]. simpl in *.
      destruct H as (H1 & H2 & H3 & H4). rewrite H4.
      destruct (Hbar (global_progress (win p))) as [-> Hv]. repeat split; auto.
    + destruct (Hbar (global_progress (win p))) as [-> Hv]. repeat split; auto.
  - destruct (Hbar (global_progress (win p))) as [-> Hv]. repeat split; auto.
Qed.

Lemma foldl_mark_urls (st : string) (us : list string) :
  ∀ items,
    map item_url (foldl (fun q u => update_first u (with_status st) q) items us)
    = map item_url items.
Proof.
  induction us as [|u us IH]; intros items; simpl; [done|].
  rewrite IH. by apply update_first_urls.
Qed.

Lemma foldl_submit_row_spec (us : list string) :
  ∀ p,
    let p' := foldl submit_row p us in
    download_dir (win p') = download_dir (win p)
    ∧ threadpool (win p') = threadpool (win p)
    ∧ queued_urls (win p') = queued_urls (win p)
    ∧ threads_spin (win p') = threads_spin (win p)
    ∧ global_progress (win p') = global_progress (win p)
    ∧ start_btn (win p') = start_btn (win p)
    ∧ events p' = events p
    ∧ queue_list (win p')
      = foldl (fun q u => update_first u (with_status "running") q) (queue_list (win p)) us
    ∧ pools p'
      = alter (fun pl => foldl (fun pl wk => pool_start wk pl) pl
                               (map (make_worker (download_dir (win p))) us))
              (threadpool (win p)) (pools p).
Proof.
  induction us as [|u us IH]; intros p; cbn [foldl map].
  - repeat split; try done. symmetry. by apply list_alter_id.
  - destruct (IH (submit_row p u)) as (I1 & I2 & I3 & I4 & I5 & I6 & I7 & I8 & I9).
    cbv zeta. rewrite I1, I2, I3, I4, I5, I6, I7, I8, I9.
    repeat split; try done.
    simpl. by rewrite list_alter_alter_eq.
Qed.

(** ** The invariant holds in every reachable state *)

Lemma setValue_ok (v : Z) (bar : QProgressBar) :
  -1 ≤ v → bar_ok bar → bar_ok (setValue v bar).
Proof. unfold bar_ok, setValue. intros Hv [H1 H2]. by destruct (_ && _). Qed.

Lemma setMaximum_ok (m : Z) (bar : QProgressBar) :
  0 ≤ m → bar_ok bar → bar_ok (setMaximum m bar).
Proof.
  unfold bar_ok, setMaximum. intros Hm [H1 H2]. simpl. split; [|done].
  destruct (_ || _); lia.
Qed.

Lemma invariant_initial dir disk available ideal :
  0 ≤ ideal → invariant (initial dir disk available ideal).
Proof.
  intros Hideal. unfold invariant, initial, in_sync. simpl. repeat split; simpl; try done.
  - apply NoDup_nil_2.
  - constructor; [|constructor]. unfold pool_bounded. simpl. lia.
  - lia.
  - intros _. eexists. split; [reflexivity|]. by split.
Qed.

Lemma invariant_set_win (p : Process) (w' : MainWindow) :
  invariant p →
  in_sync w' →
  1 ≤ threads_spin w' ≤ 16 →
  bar_ok (global_progress w') →
  threadpool w' = threadpool (win p) →
  (start_btn w' = true → start_btn (win p) = true) →
  invariant (set_win w' p).
Proof.
  intros (Hsync & Hspin & Hbar & Hpools & [Hidx Hidle] & Hev) [Hs1 Hs2] [Hp1 Hp2] [Hb1 Hb2] Htp Hbtn.
  unfold invariant. simpl. repeat split; try done.
  - by rewrite Htp.
  - rewrite Htp. intros Hs. by apply Hidle, Hbtn.
Qed.

Lemma invariant_set_events (p : Process) (evs : list Signal) :
  invariant p → Forall pending_signal evs → invariant (set_events evs p).
Proof. intros (? & ? & ? & ? & ? & ?) Hev. by unfold invariant. Qed.

Lemma on_item_finished_frame disk u path w :
  let w' := _on_item_finished disk u path w in
  item_urls w' = item_urls w ∧ queued_urls w' = queued_urls w
  ∧ threads_spin w' = threads_spin w ∧ threadpool w' = threadpool w
  ∧ start_btn w' = start_btn w
  ∧ (bar_ok (global_progress w) → bar_ok (global_progress w')).
Proof.
  unfold _on_item_finished.
  destruct (reconcile _ _ _); simpl.
  all: split; [by apply update_first_urls|].
  all: do 4 (split; [done|]).
  all: intros Hbar; apply setValue_ok; [destruct Hbar; lia | done].
Qed.

Lemma deliver_invariant (s : Signal) (p : Process) :
  invariant p → pending_signal s → invariant (deliver s p).
Proof.
  intros Hinv [u Hs]. pose proof Hinv as (Hsync & Hspin & Hbar & Hpools & Hcur & Hev).
  destruct Hsync as [Hurls Hnd].
  destruct s as [t|u' pct|u' st|u' path|b]; simpl in Hs; try done; simpl;
    apply invariant_set_win; try done.
  - split; [|done]. unfold item_urls. simpl. rewrite update_first_urls by done. done.
  - split; [|done]. unfold item_urls. simpl. rewrite update_first_urls by done. done.
  - destruct (on_item_finished_frame (fs p) u' path (win p)) as (H1 & H2 & _).
    split; [by rewrite H1, H2 | by rewrite H2].
  - by destruct (on_item_finished_frame (fs p) u' path (win p)) as (_ & _ & -> & _).
  - destruct (on_item_finished_frame (fs p) u' path (win p)) as (_ & _ & _ & _ & _ & H).
    by apply H.
  - by destruct (on_item_finished_frame (fs p) u' path (win p)) as (_ & _ & _ & -> & _).
  - by destruct (on_item_finished_frame (fs p) u' path (win p)) as (_ & _ & _ & _ & -> & _).
Qed.

Lemma foldl_pool_start_bounded (ws : list DownloadWorker) :
  ∀ pl, pool_bounded pl → pool_bounded (foldl (fun pl wk => pool_start wk pl) pl ws).
Proof.
  induction ws as [|wk ws IH]; intros pl H; simpl; [done|].
  by apply IH, pool_start_bounded.
Qed.

Lemma foldl_pool_start_limit (ws : list DownloadWorker) :
  ∀ pl, maxThreadCount (foldl (fun pl wk => pool_start wk pl) pl ws) = maxThreadCount pl.
Proof.
  induction ws as [|wk ws IH]; intros pl; simpl; [done|].
  by rewrite IH, pool_start_limit.
Qed.

(** What [_submit_all] does to the window and to the pools. *)
Lemma submit_all_spec (n : Z) (p : Process) :
  let p' := _submit_all n p in
  threadpool (win p') = threadpool (win p)
  ∧ queued_urls (win p') = queued_urls (win p)
  ∧ threads_spin (win p') = threads_spin (win p)
  ∧ global_progress (win p') = global_progress (win p)
  ∧ start_btn (win p') = start_btn (win p)
  ∧ events p' = events p
  ∧ queue_list (win p')
    = foldl (fun q u => update_first u (with_status "running") q)
            (queue_list (win p)) (item_urls (win p))
  ∧ pools p'
    = alter (fun pl => foldl (fun pl wk => pool_start wk pl) (setMaxThreadCount n pl)
                             (map (make_worker (download_dir (win p))) (item_urls (win p))))
            (threadpool (win p)) (pools p).
Proof.
  unfold _submit_all.
  match goal with |- context [foldl submit_row ?q ?us] =>
    destruct (foldl_submit_row_spec us q) as (I1 & I2 & I3 & I4 & I5 & I6 & I7 & I8 & I9) end.
  cbv zeta. rewrite I2, I3, I4, I5, I6, I7, I8, I9. simpl.
  repeat split; try done. by rewrite list_alter_alter_eq.
Qed.

Lemma start_invariant (p : Process) :
  invariant p → start_btn (win p) = true → invariant (start_downloads p).1.
Proof.
  intros Hinv Hbtn. unfold start_downloads.
  destruct (queued_urls (win p)) as [|u0 us0] eqn:Hq; [done|].
  destruct (YT_DLP_AVAILABLE p); simpl; [|done].
  match goal with |- invariant (_submit_all ?n ?q) => set (p4 := q) end.
  destruct Hinv as ([Hurls Hnd] & Hspin & Hbar & Hpools & [Hidx Hidle] & Hev).
  destruct (Hidle Hbtn) as (pl & Hpl & Hplidle).
  destruct (submit_all_spec (threads_spin (win p)) p4)
    as (I1 & I2 & I3 & I4 & I5 & I6 & I7 & I8).
  unfold invariant, in_sync, current_ok, item_urls.
  rewrite I1, I2, I3, I4, I5, I6, I7, I8. subst p4. simpl.
  split; [|split; [|split; [|split; [|split]]]]; try done.
  - split; [|done]. by rewrite foldl_mark_urls.
  - apply setMaximum_ok; [lia|]. by apply setValue_ok.
  - apply Forall_alter; [done|]. intros pl' Hpl' _.
    rewrite Hpl in Hpl'. injection Hpl' as <-.
    apply foldl_pool_start_bounded. rewrite setMaxThreadCount_idle by done.
    unfold pool_bounded. simpl. lia.
  - by rewrite length_alter.
Qed.

(** What a confirmed [stop_downloads] does: a new idle pool is appended
    and becomes the window's pool; the old pools, the rows and the
    pending signals are untouched. *)
Lemma stop_downloads_spec (p : Process) :
  let p' := stop_downloads Yes p in
  pools p' = pools p ++ [{| maxThreadCount := threads_spin (win p);
                            activeThreads := []; runQueue := [] |}]
  ∧ threadpool (win p') = length (pools p)
  ∧ start_btn (win p') = true
  ∧ queue_list (win p') = queue_list (win p)
  ∧ queued_urls (win p') = queued_urls (win p)
  ∧ threads_spin (win p') = threads_spin (win p)
  ∧ global_progress (win p') = global_progress (win p)
  ∧ events p' = events p.
Proof.
  unfold stop_downloads. simpl. repeat split; try done.
  unfold on_threadpool. simpl.
  rewrite alter_app_r_alt by done. rewrite Nat.sub_diag. simpl.
  unfold setMaxThreadCount, tryToStartMoreThreads. simpl.
  by rewrite take_nil, drop_nil.
Qed.

Lemma stop_invariant (reply : StandardButton) (p : Process) :
  invariant p → invariant (stop_downloads reply p).
Proof.
  intros Hinv. destruct (decide (reply = Yes)) as [->|Hne].
  2:{ unfold stop_downloads. by rewrite bool_decide_eq_false_2. }
  destruct (stop_downloads_spec p) as (H1 & H2 & H3 & H4 & H5 & H6 & H7 & H8).
  destruct Hinv as ([Hurls Hnd] & Hspin & Hbar & Hpools & [Hidx Hidle] & Hev).
  unfold invariant, in_sync, current_ok, item_urls.
  rewrite H1, H2, H4, H5, H6, H7, H8.
  split; [|split; [|split; [|split; [|split]]]]; try done.
  - apply Forall_app. split; [done|]. constructor; [|constructor].
    unfold pool_bounded. simpl. lia.
  - split.
    + rewrite length_app. simpl. lia.
    + intros _. eexists. split.
      * rewrite lookup_app_r by done. rewrite Nat.sub_diag. reflexivity.
      * by split.
Qed.

Lemma pip_finished_frame (code : Z) (import_error : option string) (p : Process) :
  let p' := _on_pip_finished code import_error p in
  queue_list (win p') = queue_list (win p)
  ∧ queued_urls (win p') = queued_urls (win p)
  ∧ threads_spin (win p') = threads_spin (win p)
  ∧ global_progress (win p') = global_progress (win p)
  ∧ threadpool (win p') = threadpool (win p)
  ∧ start_btn (win p') = start_btn (win p)
  ∧ pools p' = pools p ∧ events p' = events p.
Proof. unfold _on_pip_finished. by destruct import_error. Qed.

Lemma select_urls (on : bool) (row : nat) (items : list QListWidgetItem) :
  map item_url (alter (set_selected on) row items) = map item_url items.
Proof.
  revert row. induction items as [|it items IH]; intros [|row]; simpl; try done.
  f_equal. apply IH.
Qed.

Lemma exec_invariant (float_percent : Z → Z → Z) (a : Action) (p p' : Process) :
  invariant p → exec float_percent a p = Some p' → invariant p'.
Proof.
  intros Hinv Hexec. pose proof Hinv as (Hsync & Hspin & Hbar & Hpools & Hcur & Hev).
  destruct a as [links|row on| |d|n| | |reply|res checked|code err|pool k f j|pool k| ];
    simpl in Hexec.
  - injection Hexec as <-. destruct (add_links_frame links (win p)) as (F1 & F2 & F3 & F4 & F5).
    apply invariant_set_win; try done.
    + by apply add_links_sync.
    + by rewrite F4.
    + by rewrite F5.
    + by rewrite F2.
  - injection Hexec as <-. apply invariant_set_win; try done.
    destruct Hsync as [Hurls Hnd]. split; [|done].
    unfold item_urls. simpl. by rewrite select_urls.
  - destruct (remove_selected_sync (win p) Hsync) as (w' & Hrm & Hs' & _ & F1 & F2 & F3 & F4 & F5).
    rewrite Hrm in Hexec. injection Hexec as <-.
    apply invariant_set_win; try done.
    + by rewrite F4.
    + by rewrite F5.
    + by rewrite F2.
  - injection Hexec as <-. apply invariant_set_win; try done;
      unfold choose_dir; destruct (negb _); done.
  - destruct (_ && _) eqn:E; [|done]. injection Hexec as <-.
    apply invariant_set_win; try done. simpl. lia.
  - injection Hexec as <-. by apply invariant_set_win.
  - destruct (start_btn (win p)) eqn:Hbtn; [|done]. injection Hexec as <-.
    by apply start_invariant.
  - destruct (stop_btn (win p)); [|done]. injection Hexec as <-.
    by apply stop_invariant.
  - injection Hexec as <-.
    destruct (reset_all_frame res checked p) as (F1 & F2 & F3 & F4 & F5 & F6 & F7).
    destruct (decide (res = Cancel)) as [->|Hres]; [done|].
    destruct (reset_all_queue res checked p Hres) as (Hq & Hu & _).
    destruct Hbar as [Hb1 Hb2]. destruct Hcur as [Hc1 Hc2].
    unfold invariant, in_sync, current_ok, bar_ok, item_urls.
    rewrite F1, F2, F3, F4, F5, F6, F7, Hq, Hu by done.
    repeat split; try done; try lia; try apply NoDup_nil_2.
  - injection Hexec as <-.
    destruct (pip_finished_frame code err p) as (F1 & F2 & F3 & F4 & F5 & F6 & F7 & F8).
    destruct Hsync as [Hurls Hnd].
    unfold invariant, in_sync, current_ok, item_urls.
    by rewrite F1, F2, F3, F4, F5, F6, F7, F8.
  - destruct (active_worker pool k p) as [wk|]; [|done]. simpl in Hexec.
    destruct (_ !! j) as [s|] eqn:Hs; [|done]. simpl in Hexec. injection Hexec as <-.
    apply invariant_set_events; [done|]. apply Forall_app. split; [done|].
    constructor; [|constructor]. exists (w_url wk).
    eapply Forall_lookup_1; [apply run_emits|exact Hs].
  - destruct (active_worker pool k p) as [wk|] eqn:Hwk; [|done]. simpl in Hexec.
    injection Hexec as <-. destruct Hcur as [Hc1 Hc2].
    unfold invariant. simpl. split; [done|]. split; [done|]. split; [done|].
    split; [|split; [|done]].
    + apply Forall_alter; [done|]. intros pl _ Hb. by apply pool_finish_bounded.
    + split; [by rewrite length_alter|]. intros Hbtn.
      destruct (Hc2 Hbtn) as (pl & Hpl & [Ha Hq]).
      destruct (decide (pool = threadpool (win p))) as [->|Hne].
      * unfold active_worker in Hwk. rewrite Hpl in Hwk. simpl in Hwk.
        rewrite Ha in Hwk. done.
      * exists pl. split; [|done]. by rewrite list_lookup_alter_ne.
  - destruct (events p) as [|s rest] eqn:He; [done|]. injection Hexec as <-.
    apply Forall_cons in Hev as [Hs Hrest].
    apply deliver_invariant; [|done]. by apply invariant_set_events.
Qed.

Lemma steps_invariant (float_percent : Z → Z → Z) (p p' : Process) :
  rtc (step float_percent) p p' → invariant p → invariant p'.
Proof.
  induction 1 as [|p1 p2 p3 [a Ha] _ IH]; [done|].
  intros Hinv. apply IH. by eapply exec_invariant.
Qed.

Lemma reachable_invariant (float_percent : Z → Z → Z) (p : Process) :
  reachable float_percent p → invariant p.
Proof.
  intros (dir & disk & available & ideal & Hideal & Hsteps).
  eapply steps_invariant; [exact Hsteps|]. apply invariant_initial. lia.
Qed.

(** The progress bar is in the state that the theorems on the counter
    and on the reset ask for. *)
Lemma reachable_bar_ok (float_percent : Z → Z → Z) (p : Process) :
  reachable float_percent p →
  -1 ≤ value (global_progress (win p)) ∧ 0 ≤ maximum (global_progress (win p)).
Proof. intros H. by destruct (reachable_invariant _ _ H) as (_ & _ & Hbar & _). Qed.

(** ** Submitting a batch *)

Lemma find_foldl_mark_other (st u : string) (us : list string) :
  u ∉ us →
  ∀ items,
    List.find (fun it => String.eqb (item_url it) u)
              (foldl (fun q u' => update_first u' (with_status st) q) items us)
    = List.find (fun it => String.eqb (item_url it) u) items.
Proof.
  induction us as [|u0 us IH]; intros Hout items; simpl; [done|].
  apply not_elem_of_cons in Hout as [Hne Hout].
  rewrite IH by done. by apply find_update_first_other.
Qed.

Lemma find_foldl_mark (st u : string) (us : list string) :
  u ∈ us →
  ∀ items it,
    List.find (fun it => String.eqb (item_url it) u)
              (foldl (fun q u' => update_first u' (with_status st) q) items us) = Some it →
    status (data it) = st.
Proof.
  induction us as [|u0 us IH]; intros Hin items it Hfind; simpl in Hfind.
  - by apply elem_of_nil in Hin.
  - destruct (decide (u ∈ us)) as [Hin'|Hout]; [by eapply IH|].
    apply elem_of_cons in Hin as [->|Hin]; [|done].
    rewrite find_foldl_mark_other in Hfind by done.
    rewrite find_update_first_same in Hfind by done.
    destruct (List.find _ items) as [it0|]; simpl in Hfind; [|done].
    by injection Hfind as <-.
Qed.

Lemma find_unique (items : list QListWidgetItem) (it : QListWidgetItem) :
  NoDup (map item_url items) → it ∈ items →
  List.find (fun it' => String.eqb (item_url it') (item_url it)) items = Some it.
Proof.
  induction items as [|it0 items IH]; simpl; intros Hnd Hin.
  - by apply elem_of_nil in Hin.
  - apply NoDup_cons in Hnd as [Hfresh Hnd].
    apply elem_of_cons in Hin as [->|Hin].
    + by rewrite String.eqb_refl.
    + assert (String.eqb (item_url it0) (item_url it) = false) as ->.
      { apply String.eqb_neq. intros Heq. apply Hfresh. rewrite Heq.
        by apply list_elem_of_fmap_2. }
      by apply IH.
Qed.

(** After the loop of [_submit_all] every row is ['running']. *)
Lemma mark_all_running (items : list QListWidgetItem) :
  NoDup (map item_url items) →
  ∀ it, it ∈ foldl (fun q u => update_first u (with_status "running") q)
                   items (map item_url items) →
        status (data it) = "running".
Proof.
  intros Hnd it Hin.
  pose proof (foldl_mark_urls "running" (map item_url items) items) as Hurls.
  eapply (find_foldl_mark "running" (item_url it) (map item_url items)).
  - rewrite <- Hurls. by apply list_elem_of_fmap_2.
  - apply find_unique; [by rewrite Hurls | done].
Qed.

Lemma pool_finish_limit (k : nat) (pl : QThreadPool) :
  maxThreadCount (pool_finish k pl) = maxThreadCount pl.
Proof. done. Qed.

Lemma deliver_frame (s : Signal) (p : Process) :
  pending_signal s →
  threadpool (win (deliver s p)) = threadpool (win p)
  ∧ start_btn (win (deliver s p)) = start_btn (win p)
  ∧ stop_btn (win (deliver s p)) = stop_btn (win p)
  ∧ pools (deliver s p) = pools p.
Proof.
  intros [u Hs]. destruct s as [t|u' pct|u' st|u' path|b]; simpl in Hs; try done.
  unfold deliver, in_win. cbn [win set_win pools].
  unfold _on_item_finished. by destruct (reconcile _ _ _).
Qed.

Lemma batch_pool_set_win (i : nat) (n : Z) (p : Process) (w' : MainWindow) :
  batch_pool i n p →
  threadpool w' = threadpool (win p) →
  (start_btn (win p) = false → start_btn w' = false) →
  batch_pool i n (set_win w' p).
Proof.
  intros [Hpl Hwhere] Htp Hbtn. split; [done|]. simpl. rewrite Htp.
  destruct Hwhere as [[Hi Hoff]|Hlt]; [left|right]; auto.
Qed.

Lemma exec_batch_pool (float_percent : Z → Z → Z) (a : Action) (i : nat) (n : Z)
    (p p' : Process) :
  invariant p → batch_pool i n p → exec float_percent a p = Some p' → batch_pool i n p'.
Proof.
  intros Hinv Hbatch Hexec.
  pose proof Hinv as (Hsync & Hspin & Hbar & Hpools & Hcur & Hev).
  pose proof Hbatch as [(pl & Hpl & Hmax) Hwhere].
  destruct a as [links|row on| |d|m| | |reply|res checked|code err|pool k f j|pool k| ];
    simpl in Hexec.
  - injection Hexec as <-. destruct (add_links_frame links (win p)) as (F1 & F2 & _).
    apply batch_pool_set_win; [done|done|]. by rewrite F2.
  - injection Hexec as <-. by apply batch_pool_set_win.
  - destruct (remove_selected_sync (win p) Hsync) as (w' & Hrm & _ & _ & F1 & F2 & _).
    rewrite Hrm in Hexec. injection Hexec as <-.
    apply batch_pool_set_win; [done|done|]. by rewrite F2.
  - injection Hexec as <-. apply batch_pool_set_win; [done| |];
      unfold choose_dir; by destruct (negb _).
  - destruct (_ && _); [|done]. injection Hexec as <-. by apply batch_pool_set_win.
  - injection Hexec as <-. by apply batch_pool_set_win.
  - destruct (start_btn (win p)) eqn:Hbtn; [|done]. injection Hexec as <-.
    destruct Hwhere as [[_ Hoff]|Hlt]; [congruence|].
    unfold start_downloads. destruct (queued_urls (win p)); [done|].
    destruct (YT_DLP_AVAILABLE p); simpl; [|done].
    match goal with |- batch_pool _ _ (_submit_all ?m ?q) =>
      destruct (submit_all_spec m q) as (I1 & _ & _ & _ & _ & _ & _ & I8) end.
    split.
    + exists pl. split; [|done]. rewrite I8. simpl.
      rewrite list_lookup_alter_ne by lia. done.
    + right. by rewrite I1.
  - destruct (stop_btn (win p)); [|done]. injection Hexec as <-.
    destruct (decide (reply = Yes)) as [->|Hne].
    2:{ unfold stop_downloads. by rewrite bool_decide_eq_false_2. }
    destruct (stop_downloads_spec p) as (H1 & H2 & _).
    assert (Hi : (i < length (pools p))%nat) by (apply lookup_lt_is_Some; eauto).
    split.
    + exists pl. split; [|done]. rewrite H1. by rewrite lookup_app_l.
    + right. by rewrite H2.
  - injection Hexec as <-.
    destruct (reset_all_frame res checked p) as (F1 & F2 & _ & _ & _ & F6 & _).
    unfold batch_pool. rewrite F1, F2, F6. done.
  - injection Hexec as <-.
    destruct (pip_finished_frame code err p) as (_ & _ & _ & _ & F5 & F6 & F7 & _).
    unfold batch_pool. rewrite F5, F6, F7. done.
  - destruct (active_worker pool k p) as [wk|]; [|done]. simpl in Hexec.
    destruct (_ !! j) as [s|]; [|done]. simpl in Hexec. by injection Hexec as <-.
  - destruct (active_worker pool k p) as [wk|]; [|done]. simpl in Hexec.
    injection Hexec as <-. split; [|done]. simpl.
    destruct (decide (pool = i)) as [->|Hne].
    + exists (pool_finish k pl). split; [|done].
      by rewrite list_lookup_alter_eq, Hpl.
    + exists pl. split; [|done]. by rewrite list_lookup_alter_ne.
  - destruct (events p) as [|s rest] eqn:He; [done|]. injection Hexec as <-.
    apply Forall_cons in Hev as [Hs _].
    destruct (deliver_frame s (set_events rest p) Hs) as (F1 & F2 & _ & F4).
    unfold batch_pool. rewrite F1, F2, F4. done.
Qed.

Lemma steps_batch_pool (float_percent : Z → Z → Z) (i : nat) (n : Z) (p p' : Process) :
  rtc (step float_percent) p p' → invariant p → batch_pool i n p →
  invariant p' ∧ batch_pool i n p'.
Proof.
  induction 1 as [|p1 p2 p3 [a Ha] _ IH]; [done|].
  intros Hinv Hbatch. apply IH.
  - by eapply exec_invariant.
  - by eapply exec_batch_pool.
Qed.

(** C1, as the code has it.  From a state the program can reach, with
    Start enabled, the queue not empty and yt-dlp present: Start marks
    every row ['running'] at once; the pool gets the limit [n] of the
    spin box, the first [n] workers of the batch get a thread and the
    others wait in its run queue; from then on, whatever happens, that
    pool keeps the limit [n] and never has more than [n] workers
    executing; and a waiting worker gets a thread when a worker of the
    full pool returns. *)
Theorem start_caps_executors_not_rows (float_percent : Z → Z → Z) (p : Process) :
  reachable float_percent p →
  start_btn (win p) = true →
  queued_urls (win p) ≠ [] →
  YT_DLP_AVAILABLE p = true →
  let n := threads_spin (win p) in
  let p1 := (start_downloads p).1 in
  let batch := map (make_worker (download_dir (win p))) (item_urls (win p)) in
  (∀ it, it ∈ queue_list (win p1) → status (data it) = "running")
  ∧ item_urls (win p1) = item_urls (win p)
  ∧ pools p1 !! threadpool (win p1)
    = Some {| maxThreadCount := n;
              activeThreads := take (Z.to_nat n) batch;
              runQueue := drop (Z.to_nat n) batch |}
  ∧ (∀ p2, rtc (step float_percent) p1 p2 →
       ∃ pl, pools p2 !! threadpool (win p1) = Some pl
             ∧ maxThreadCount pl = n
             ∧ Z.of_nat (length (activeThreads pl)) ≤ n)
  ∧ (∀ pl k wk q,
       Z.of_nat (length (activeThreads pl)) = maxThreadCount pl →
       is_Some (activeThreads pl !! k) →
       runQueue pl = wk :: q →
       pool_finish k pl = {| maxThreadCount := maxThreadCount pl;
                             activeThreads := delete k (activeThreads pl) ++ [wk];
                             runQueue := q |}).
Proof.
  intros Hreach Hbtn Hq Havail n p1 batch.
  pose proof (reachable_invariant _ _ Hreach) as Hinv.
  pose proof (start_invariant p Hinv Hbtn) as Hinv1. fold p1 in Hinv1.
  destruct Hinv as ([Hurls Hnd] & Hspin & Hbar & Hpools & [Hidx Hidle] & Hev).
  destruct (Hidle Hbtn) as (pl & Hpl & Hplidle).
  assert (∃ q, p1 = _submit_all n q
                     ∧ queue_list (win q) = queue_list (win p)
                     ∧ download_dir (win q) = download_dir (win p)
                     ∧ threadpool (win q) = threadpool (win p)
                     ∧ pools q = pools p
                     ∧ start_btn (win q) = false) as (q & Hp1 & Q1 & Q2 & Q3 & Q4 & Q5).
  { subst p1. unfold start_downloads.
    destruct (queued_urls (win p)); [done|]. rewrite Havail. simpl.
    eexists. split; [reflexivity|]. done. }
  destruct (submit_all_spec n q) as (I1 & I2 & I3 & I4 & I5 & I6 & I7 & I8).
  rewrite <- Hp1 in I1, I2, I3, I4, I5, I6, I7, I8.
  assert (Hlook : pools p1 !! threadpool (win p1)
                  = Some {| maxThreadCount := n;
                            activeThreads := take (Z.to_nat n) batch;
                            runQueue := drop (Z.to_nat n) batch |}).
  { rewrite I8, I1, list_lookup_alter_eq, Q3, Q4, Hpl. simpl. f_equal.
    rewrite setMaxThreadCount_idle by done.
    rewrite foldl_pool_start_room by (simpl; lia).
    unfold item_urls. rewrite Q1, Q2. simpl. fold (item_urls (win p)). fold batch.
    by rewrite Z.sub_0_r. }
  split; [|split; [|split; [done|split; [|intros; by apply pool_finish_promotes]]]].
  - intros it Hit. rewrite I7 in Hit. unfold item_urls in Hit.
    apply mark_all_running in Hit; [done|]. rewrite Q1. fold (item_urls (win p)).
    by rewrite Hurls.
  - unfold item_urls. rewrite I7, foldl_mark_urls. by rewrite Q1.
  - intros p2 Hsteps.
    assert (Hbatch : batch_pool (threadpool (win p1)) n p1).
    { split; [eexists; split; [exact Hlook|done]|]. left. split; [done|].
      by rewrite I5. }
    destruct (steps_batch_pool _ _ _ _ _ Hsteps Hinv1 Hbatch)
      as [(_ & _ & _ & Hpools2 & _) [(pl2 & Hpl2 & Hmax2) _]].
    exists pl2. split; [done|]. split; [done|].
    rewrite <- Hmax2. by eapply (Forall_lookup_1 pool_bounded).
Qed.

Lemma demo_reachable : reachable exact_percent demo.
Proof.
  exists "/downloads", demo_disk, true, 4. split; [lia|].
  eapply rtc_l; [|apply rtc_refl]. exists (UserAddLinks [demo_url]). reflexivity.
Qed.

Lemma start_caps_executors_not_rows_witness :
  (∀ it, it ∈ queue_list (win (start_downloads demo).1) → status (data it) = "running")
  ∧ pools (start_downloads demo).1 !! 0%nat
    = Some {| maxThreadCount := 3; activeThreads := [demo_worker]; runQueue := [] |}.
Proof.
  assert (Hq : queued_urls (win demo) ≠ []) by (vm_compute; discriminate).
  pose proof (start_caps_executors_not_rows exact_percent demo demo_reachable
                eq_refl Hq eq_refl) as (Hrows & _ & Hpool & _).
  split; [exact Hrows | exact Hpool].
Defined.

(** C1 fails as stated: with the limit 1 and two links queued, Start
    leaves two rows in ['running']. *)
Lemma more_running_rows_than_workers :
  ∃ p, execs exact_percent [UserAddLinks [other_url]; UserSetThreads 1; UserStart] demo = Some p
       ∧ running_urls (win p) = [demo_url; other_url]
       ∧ threads_spin (win p) = 1
       ∧ ¬ (Z.of_nat (length (running_urls (win p))) ≤ threads_spin (win p)).
Proof.
  eexists. split; [vm_compute; reflexivity|].
  split; [vm_compute; reflexivity|]. split; [vm_compute; reflexivity|].
  vm_compute. intros H. by apply H.
Qed.

(** ** Rows in ['running'] after a stop *)





Lemma foldl_add_link_rows (links : list string) :
  ∀ (w : MainWindow) (n : Z),
    ∃ added, queue_list (foldl add_link (w, n) links).1
             = queue_list w ++ map new_item added.
Proof.
  induction links as [|l links IH]; intros w n; cbn [foldl].
  - exists []. simpl. by rewrite app_nil_r.
  - destruct (decide (l ∈ queued_urls w)) as [Hin|Hout].
    + rewrite add_link_present by done. apply IH.
    + destruct (add_link_absent w n l Hout) as (w1 & -> & Hq & _).
      destruct (IH w1 (n + 1)) as (added & ->). exists (l :: added).
      rewrite Hq. simpl. by rewrite <- app_assoc.
Qed.








Lemma demo_started_reachable : reachable exact_percent demo_started.
Proof.
  exists "/downloads", demo_disk, true, 4. split; [lia|].
  eapply rtc_l; [exists (UserAddLinks [demo_url]); reflexivity|].
  eapply rtc_l; [exists UserStart; vm_compute; reflexivity|]. apply rtc_refl.
Qed.


(** What Stop does not do: a worker that was waiting in the run queue of
    the old pool when Stop was pressed (its row already ['running'])
    still gets a thread there when the executing one returns. *)
Example stop_keeps_old_run_queue :
  ∃ p, execs exact_percent
         [UserAddLinks [other_url]; UserSetThreads 1; UserStart; UserStop Yes;
          WorkerReturns 0 0] demo = Some p
       ∧ pools p = [{| maxThreadCount := 1;
                       activeThreads := [make_worker "/downloads" other_url];
                       runQueue := [] |};
                    {| maxThreadCount := 1; activeThreads := []; runQueue := [] |}]
       ∧ threadpool (win p) = 1%nat.
Proof. eexists. split; [vm_compute; reflexivity|]. by vm_compute. Qed.

(** * Further properties of the code *)

(** ** Extracting links *)





(** ** Adding links, in general *)

Lemma foldl_add_link_added (links : list string) :
  ∀ (w : MainWindow) (n : Z),
    ∃ added w',
      foldl add_link (w, n) links = (w', n + Z.of_nat (length added))
      ∧ queue_list w' = queue_list w ++ map new_item added
      ∧ queued_urls w' = queued_urls w ++ added
      ∧ NoDup added
      ∧ (∀ u, u ∈ added ↔ u ∈ links ∧ u ∉ queued_urls w)
      ∧ added `sublist_of` links.
Proof.
  induction links as [|l links IH]; intros w n; cbn [foldl].
  - exists [], w. simpl. rewrite !app_nil_r, Z.add_0_r.
    split; [done|]. split; [done|]. split; [done|]. split; [apply NoDup_nil_2|].
    split; [|done]. intros u. rewrite !elem_of_nil. tauto.
  - destruct (decide (l ∈ queued_urls w)) as [Hin|Hout].
    + rewrite add_link_present by done.
      destruct (IH w n) as (added & w' & -> & Hq & Hu & Hnd & Hel & Hsub).
      exists added, w'. do 4 (split; [done|]). split; [|by apply sublist_cons].
      intros u. rewrite Hel, elem_of_cons. split; [tauto|].
      intros [[->|Hl] Hnot]; [done|]. tauto.
    + destruct (add_link_absent w n l Hout) as (w1 & -> & Hq1 & Hu1 & _).
      destruct (IH w1 (n + 1)) as (added & w' & -> & Hq & Hu & Hnd & Hel & Hsub).
      exists (l :: added), w'.
      assert (Hl : l ∉ added).
      { intros Hl%Hel. destruct Hl as [_ Hl]. apply Hl. rewrite Hu1.
        apply elem_of_app. right. by apply list_elem_of_singleton. }
      split; [f_equal; simpl length; lia|].
      split; [rewrite Hq, Hq1; simpl; by rewrite <- app_assoc|].
      split; [rewrite Hu, Hu1; by rewrite <- app_assoc|].
      split; [by apply NoDup_cons|].
      split; [|by apply sublist_skip].
      intros u. rewrite elem_of_cons, Hel, Hu1, elem_of_app, list_elem_of_singleton, elem_of_cons.
      split.
      * intros [->|[Hin Hnot]]; [split; [by left|done]|]. split; [by right|]. tauto.
      * intros [[->|Hin] Hnot]; [by left|].
        destruct (decide (u = l)) as [->|Hne]; [by left|]. right. tauto.
Qed.

(** X2.  [_add_links] appends, for any list of links, exactly the links
    that are not yet queued, each once and in the order given: the old
    rows and urls stay in front, every new row is a fresh ['queued']
    row, and the last console line reports the number of rows added. *)
Theorem add_links_appends_fresh (links : list string) (w : MainWindow) :
  ∃ added,
    queue_list (_add_links links w) = queue_list w ++ map new_item added
    ∧ queued_urls (_add_links links w) = queued_urls w ++ added
    ∧ NoDup added
    ∧ (∀ u, u ∈ added ↔ u ∈ links ∧ u ∉ queued_urls w)
    ∧ added `sublist_of` links
    ∧ last (console (_add_links links w))
      = Some ("Добавлено ссылок: " +:+ pretty (Z.of_nat (length added))).
Proof.
  destruct (foldl_add_link_added links w 0) as (added & w' & Hfold & Hq & Hu & Hnd & Hel & Hsub).
  exists added. unfold _add_links. rewrite Hfold. simpl.
  do 5 (split; [done|]). by rewrite last_snoc.
Qed.

Lemma add_link_same_queue (w1 w2 : MainWindow) (n1 n2 : Z) (l : string) :
  queue_list w1 = queue_list w2 → queued_urls w1 = queued_urls w2 →
  queue_list (add_link (w1, n1) l).1 = queue_list (add_link (w2, n2) l).1
  ∧ queued_urls (add_link (w1, n1) l).1 = queued_urls (add_link (w2, n2) l).1.
Proof.
  intros Hq Hu. unfold add_link. rewrite Hu.
  destruct (bool_decide _); simpl; [done|]. by rewrite Hq, Hu.
Qed.

Lemma foldl_add_link_same_queue (links : list string) :
  ∀ (w1 w2 : MainWindow) (n1 n2 : Z),
    queue_list w1 = queue_list w2 → queued_urls w1 = queued_urls w2 →
    queue_list (foldl add_link (w1, n1) links).1 = queue_list (foldl add_link (w2, n2) links).1
    ∧ queued_urls (foldl add_link (w1, n1) links).1
      = queued_urls (foldl add_link (w2, n2) links).1.
Proof.
  induction links as [|l links IH]; intros w1 w2 n1 n2 Hq Hu; cbn [foldl]; [done|].
  destruct (add_link_same_queue w1 w2 n1 n2 l Hq Hu) as [Hq' Hu'].
  destruct (add_link (w1, n1) l) as [w1' m1], (add_link (w2, n2) l) as [w2' m2].
  by apply IH.
Qed.

(** X3.  Adding two lists of links one after the other leaves the same
    rows and the same url list as adding their concatenation at once. *)
Theorem add_links_app (l1 l2 : list string) (w : MainWindow) :
  queue_list (_add_links l2 (_add_links l1 w)) = queue_list (_add_links (l1 ++ l2) w)
  ∧ queued_urls (_add_links l2 (_add_links l1 w)) = queued_urls (_add_links (l1 ++ l2) w).
Proof.
  destruct (add_links_queue l2 (_add_links l1 w)) as [-> ->].
  destruct (add_links_queue (l1 ++ l2) w) as [-> ->].
  destruct (add_links_queue l1 w) as [Hq Hu].
  rewrite foldl_app.
  destruct (foldl add_link (w, 0) l1) as [w1 n1]. simpl in Hq, Hu.
  by apply foldl_add_link_same_queue.
Qed.

(** ** Removing rows, in general *)




Lemma window_eta (w : MainWindow) :
  set_console (console w) (set_queued_urls (queued_urls w) (set_queue_list (queue_list w) w)) = w.
Proof. by destruct w. Qed.



(** ** Signals for a url that has no row *)

Lemma update_first_absent u f (items : list QListWidgetItem) :
  u ∉ map item_url items → update_first u f items = items.
Proof.
  induction items as [|it rest IH]; simpl; intros Hout; [done|].
  apply not_elem_of_cons in Hout as [Hne Hout]. fold (item_url it).
  assert (String.eqb (item_url it) u = false) as -> by (apply String.eqb_neq; congruence).
  by rewrite IH.
Qed.

Lemma set_queue_list_eta (w : MainWindow) : set_queue_list (queue_list w) w = w.
Proof. by destruct w. Qed.

(** X5.  A progress or status signal for a url that has no row (the row
    was removed, or the queue was reset) changes nothing at all.  A
    [finished] signal for such a url changes no row either, but it still
    records the file if the path resolves and still moves the batch
    counter. *)
Theorem slots_ignore_absent_url (w : MainWindow) (u : string) :
  u ∉ item_urls w →
  (∀ percent, _on_item_progress u percent w = w)
  ∧ (∀ st, _on_item_status u st w = w)
  ∧ (∀ disk path,
       let w' := _on_item_finished disk u path w in
       queue_list w' = queue_list w
       ∧ downloaded_files w'
         = downloaded_files w ++ match reconcile disk (download_dir w) path with
                                 | Some f => [f]
                                 | None => []
                                 end
       ∧ global_progress w'
         = setValue (Z.min (maximum (global_progress w)) (value (global_progress w) + 1))
                    (global_progress w)).
Proof.
  intros Hout. split; [|split].
  - intros percent. unfold _on_item_progress.
    rewrite update_first_absent by done. apply set_queue_list_eta.
  - intros st. unfold _on_item_status, _set_item_status.
    rewrite update_first_absent by done. apply set_queue_list_eta.
  - intros disk path. unfold _on_item_finished.
    destruct (reconcile _ _ _); simpl; rewrite update_first_absent by done;
      rewrite ?app_nil_r; done.
Qed.

Lemma slots_ignore_absent_url_witness :
  _on_item_status other_url "error" (win demo) = win demo.
Proof.
  apply (slots_ignore_absent_url (win demo) other_url).
  vm_compute. intros H. apply list_elem_of_singleton in H. discriminate.
Defined.

(** ** The executor, in general *)

Lemma hook_signal_of_worker u s : hook_signal u s → signal_of_worker u s.
Proof. by destruct s. Qed.

Lemma fetched_signal_of_worker u s : fetched_signal u s → signal_of_worker u s.
Proof. destruct s; simpl; try done. intros [-> [->| ->]]; auto. Qed.

Lemma progress_hook_hook_signals fp u d :
  Forall (hook_signal u) (progress_hook fp u d).1.
Proof.
  unfold progress_hook. apply try_except_emits; [|intros e; repeat constructor].
  destruct (py_eq_str _ "downloading"); [|destruct (py_eq_str _ "finished")].
  - apply bind_emits.
    + destruct (truthy _); [|constructor].
      unfold hook_percent. by repeat case_match.
    + intros percent. repeat constructor.
  - apply bind_emits; [repeat constructor|]. intros _.
    apply bind_emits; [repeat constructor|]. intros _.
    unfold emit_item_finished. case_match; repeat constructor.
  - constructor.
Qed.

Lemma fetch_calls_hook_signals fp u cs :
  ∃ out, fetch_calls fp u cs = (out, Ok tt) ∧ Forall (hook_signal u) out.
Proof.
  induction cs as [|c cs (out & IH & Hout)]; simpl.
  - exists []. by split.
  - assert (∃ o, fetch_call fp u c = (o, Ok tt) ∧ Forall (hook_signal u) o)
      as (o & -> & Ho).
    { destruct c as [d| | | |]; simpl; try (eexists; split; [reflexivity|]; repeat constructor).
      pose proof (progress_hook_hook_signals fp u d) as He.
      pose proof (progress_hook_returns fp u d) as Hr.
      destruct (progress_hook fp u d) as [o r]. simpl in *. subst r. eauto. }
    simpl. rewrite IH. eexists. split; [reflexivity|]. by apply Forall_app.
Qed.

(** What [run] emits when the fetch library is there: the start line,
    what the hook and the logger emit, then ['done'] if [download]
    returned, then the error line and ['error'] if an exception came out
    of the [with] block. *)
Lemma run_fetched_spec fp (wk : DownloadWorker) (f : Fetch) :
  ∃ out,
    Forall (hook_signal (w_url wk)) out
    ∧ run fp true wk f =
      (append_console ("Starting download: " +:+ w_url wk) ::
         out ++
         match raised f with
         | None => [item_status (w_url wk) "done"]
         | Some _ => []
         end ++
         match fetch_exception f with
         | None => []
         | Some e =>
             [append_console ("Error downloading " +:+ w_url wk +:+ ": " +:+ exc_str e
                              +:+ String "010"%char (exc_traceback e));
              item_status (w_url wk) "error"]
         end,
       Ok tt).
Proof.
  destruct (fetch_calls_hook_signals fp (w_url wk) (calls f)) as (out & Hcalls & Hout).
  exists out. split; [done|].
  unfold run, with_YoutubeDL, ydl_download, fetch_exception. simpl.
  rewrite Hcalls. simpl.
  destruct (raised f) as [e|], (exit_raised f) as [e'|]; simpl;
    rewrite ?app_nil_r, <- ?app_assoc; reflexivity.
Qed.

Lemma run_fetched_signals fp wk f :
  Forall (fetched_signal (w_url wk)) (run fp true wk f).1.
Proof.
  destruct (run_fetched_spec fp wk f) as (out & Hout & ->). simpl.
  constructor; [done|]. apply Forall_app. split.
  - eapply Forall_impl; [exact Hout|]. intros s Hs. by destruct s.
  - apply Forall_app. split.
    + destruct (raised f); repeat apply Forall_cons_2; simpl; auto.
    + destruct (fetch_exception f); repeat apply Forall_cons_2; simpl; auto.
Qed.

(** X6.  When the fetch returns and leaving the [with] block raises
    nothing, [run] returns normally, emits no ['error'] status, and its
    last signal is the status ['done']; once its signals are delivered
    the row of the url is in ['done'], also when a [finished] event had
    put it in ['completed'] before. *)
Theorem run_success_ends_done (float_percent : Z → Z → Z)
    (wk : DownloadWorker) (f : Fetch) (p : Process) :
  fetch_exception f = None →
  let u := w_url wk in
  let signals := (run float_percent true wk f).1 in
  (run float_percent true wk f).2 = Ok tt
  ∧ (∃ out, Forall (hook_signal u) out
            ∧ signals = append_console ("Starting download: " +:+ u) :: out
                        ++ [item_status u "done"])
  ∧ (∀ u', item_status u' "error" ∉ signals)
  ∧ (u ∈ item_urls (win p) → status_of u (win (deliver_all signals p)) = Some "done").
Proof.
  intros Hnone u signals.
  destruct (run_fetched_spec float_percent wk f) as (out & Hout & Hrun).
  assert (Hraised : raised f = None).
  { unfold fetch_exception in Hnone. by destruct (exit_raised f). }
  rewrite Hnone, Hraised, app_nil_r in Hrun.
  assert (Hsig : signals = append_console ("Starting download: " +:+ u) :: out
                           ++ [item_status u "done"]) by (subst signals; by rewrite Hrun).
  split; [by rewrite Hrun|]. split; [eauto|]. split.
  - intros u' Hin. rewrite Hsig in Hin.
    apply elem_of_cons in Hin as [Hin|Hin]; [done|].
    apply elem_of_app in Hin as [Hin|Hin].
    + by apply (Forall_forall (hook_signal u) out) in Hin.
    + apply list_elem_of_singleton in Hin. discriminate.
  - intros Hin. rewrite Hsig, app_comm_cons.
    assert (Hfront : Forall (signal_of_worker u)
                       (append_console ("Starting download: " +:+ u) :: out)).
    { constructor; [done|]. eapply Forall_impl; [exact Hout|].
      intros s. apply hook_signal_of_worker. }
    remember (append_console ("Starting download: " +:+ u) :: out) as front.
    unfold deliver_all. rewrite foldl_app. simpl.
    apply deliver_status_sets.
    destruct (deliver_all_worker_signals u front p Hfront) as (_ & _ & Hu & _).
    unfold deliver_all in Hu. by rewrite Hu.
Qed.

Lemma run_success_ends_done_witness :
  status_of demo_url
    (win (deliver_all (run exact_percent true demo_worker fetch_losing_total).1 demo))
  = Some "done".
Proof.
  apply (run_success_ends_done exact_percent demo_worker fetch_losing_total demo eq_refl).
  vm_compute. apply list_elem_of_here.
Defined.

(** X7.  The progress hook never raises.  It emits nothing for a status
    other than ['downloading'] and ['finished']; it reports 0 percent
    when no total size is known; when the downloaded size is not a
    number it emits a single [hook error] console line and no progress;
    and for a finished file without a name it still reports 100 percent
    and emits [finished] with the empty path. *)
Theorem progress_hook_edges (float_percent : Z → Z → Z) (u : string) (d : HookDict) :
  let st := dict_get (top d) "status" in
  let total := py_or (py_or (dict_get (top d) "total_bytes")
                            (dict_get (top d) "total_bytes_estimate")) (PyInt 0) in
  let downloaded := dict_get_default (top d) "downloaded_bytes" (PyInt 0) in
  let filename := py_or (dict_get (top d) "filename")
                        (dict_get (default ∅ (info_dict d)) "filepath") in
  (progress_hook float_percent u d).2 = Ok tt
  ∧ (py_eq_str st "downloading" = false → py_eq_str st "finished" = false →
     (progress_hook float_percent u d).1 = [])
  ∧ (py_eq_str st "downloading" = true → truthy total = false →
     (progress_hook float_percent u d).1
     = [item_progress u 0;
        append_console ("[" +:+ u +:+ "] downloading: " +:+ pretty 0
                        +:+ "% ETA=" +:+ py_str (dict_get (top d) "eta"))])
  ∧ (py_eq_str st "downloading" = true → truthy total = true →
     (∀ z, downloaded ≠ PyInt z) →
     (progress_hook float_percent u d).1
     = [append_console ("[hook error] unsupported operand type(s) for /: '"
                        +:+ py_type downloaded +:+ "' and '" +:+ py_type total +:+ "'")])
  ∧ (py_eq_str st "downloading" = false → py_eq_str st "finished" = true →
     truthy filename = false →
     (progress_hook float_percent u d).1
     = [item_progress u 100;
        append_console ("[" +:+ u +:+ "] finished -> " +:+ py_str filename);
        item_finished u ""]).
Proof.
  intros st total downloaded filename.
  split; [apply progress_hook_returns|].
  unfold progress_hook. fold st total downloaded filename.
  split; [|split; [|split]].
  - intros -> ->. done.
  - intros -> ->. done.
  - intros -> -> Hd. unfold hook_percent.
    destruct downloaded as [|z|s]; [done|by destruct (Hd z)|done].
  - intros -> -> Hf. unfold py_or at 1. rewrite Hf. done.
Qed.

Lemma progress_hook_edges_witness :
  (progress_hook exact_percent demo_url
     {| top := {[ "status" := PyStr "downloading"; "total_bytes" := PyInt 10;
                  "downloaded_bytes" := PyNone ]};
        info_dict := None |}).1
  = [append_console
       "[hook error] unsupported operand type(s) for /: 'NoneType' and 'int'"].
Proof.
  pose proof (progress_hook_edges exact_percent demo_url
     {| top := {[ "status" := PyStr "downloading"; "total_bytes" := PyInt 10;
                  "downloaded_bytes" := PyNone ]};
        info_dict := None |}) as (_ & _ & _ & Herr & _).
  apply Herr; [reflexivity | reflexivity |]. intros z. vm_compute. discriminate.
Defined.

(** ** Paths recorded as downloaded *)

Lemma append_assoc (a b c : string) : (a +:+ b) +:+ c = a +:+ (b +:+ c).
Proof.
  induction a as [|x a IH]; [reflexivity|].
  change (String x ((a +:+ b) +:+ c) = String x (a +:+ b +:+ c)). by rewrite IH.
Qed.

Lemma append_empty_r (a : string) : a +:+ "" = a.
Proof.
  induction a as [|x a IH]; [reflexivity|].
  change (String x (a +:+ "") = String x a). by rewrite IH.
Qed.

Lemma has_slash_append (a b : string) :
  has_slash (a +:+ b) = has_slash a || has_slash b.
Proof.
  induction a as [|x a IH]; simpl; [done|]. rewrite IH. by rewrite orb_assoc.
Qed.

Lemma basename_from_no_slash (p : string) :
  ∀ seg, has_slash seg = false → has_slash (basename_from seg p) = false.
Proof.
  induction p as [|c p IH]; intros seg Hseg; simpl; [done|].
  destruct (Ascii.eqb c "/") eqn:Hc; [by apply IH|].
  apply IH. rewrite has_slash_append, Hseg. simpl. by rewrite Hc.
Qed.

Lemma basename_from_plain (b : string) :
  ∀ seg, has_slash b = false → basename_from seg b = seg +:+ b.
Proof.
  induction b as [|c b IH]; intros seg Hb; simpl in *.
  - by rewrite append_empty_r.
  - apply orb_false_iff in Hb as [Hc Hb]. rewrite Hc.
    rewrite IH by done. by rewrite append_assoc.
Qed.

Lemma basename_from_after_slash (a b : string) :
  ∀ seg, basename_from seg (a +:+ "/" +:+ b) = basename_from "" b.
Proof.
  induction a as [|c a IH]; intros seg; simpl; [done|].
  destruct (Ascii.eqb c "/"); apply IH.
Qed.

Lemma endswith_slash_split (a : string) :
  endswith_slash a = true → ∃ a', a = a' +:+ "/".
Proof.
  induction a as [|c a IH]; simpl; [done|].
  destruct a as [|c' a'].
  - intros Hc%Ascii.eqb_eq. subst c. by exists "".
  - intros H. destruct (IH H) as [a0 Ha]. exists (String c a0). rewrite Ha. reflexivity.
Qed.

(** The candidate that [_on_item_finished] probes lies directly in the
    download directory and has the base name of the reported path. *)
Lemma candidate_in_dir (dir path : string) :
  basename (path_join dir (basename path)) = basename path
  ∧ ∃ sep, (sep = "" ∨ sep = "/") ∧ path_join dir (basename path) = dir +:+ sep +:+ basename path.
Proof.
  set (b := basename path).
  assert (Hb : has_slash b = false) by by apply basename_from_no_slash.
  assert (Hstart : startswith_slash b = false).
  { destruct b as [|c b']; [done|]. simpl in *. by apply orb_false_iff in Hb as [-> _]. }
  assert (Hbb : basename b = b) by (unfold basename; by rewrite basename_from_plain).
  unfold path_join. rewrite Hstart.
  destruct (String.eqb dir "") eqn:Hdir; simpl.
  - apply String.eqb_eq in Hdir as ->. simpl. split; [done|]. exists "". by split; [left|].
  - destruct (endswith_slash dir) eqn:Hend.
    + split; [|exists ""; by split; [left|]].
      destruct (endswith_slash_split dir Hend) as [a ->].
      rewrite append_assoc. unfold basename at 1.
      rewrite basename_from_after_slash. exact Hbb.
    + split; [|exists "/"; by split; [right|]].
      unfold basename at 1. rewrite basename_from_after_slash. exact Hbb.
Qed.

(** X8.  Whatever [_on_item_finished] records for a reported path was a
    file on disk at that moment, and is either the reported path itself
    or, when that is no file, the file with the same base name directly
    in the download directory; an empty reported path records nothing. *)
Theorem reconcile_sound (disk : FileSystem) (dir path f : string) :
  reconcile disk dir path = Some f →
  path ≠ ""
  ∧ isfile disk f = true
  ∧ (f = path
     ∨ (isfile disk path = false
        ∧ f = path_join dir (basename path)
        ∧ basename f = basename path
        ∧ ∃ sep, (sep = "" ∨ sep = "/") ∧ f = dir +:+ sep +:+ basename path)).
Proof.
  unfold reconcile. destruct (String.eqb path "") eqn:Hp; simpl; [done|].
  apply String.eqb_neq in Hp. intros H. split; [done|].
  destruct (isfile disk path) eqn:Hfile.
  - injection H as <-. by split; [|left].
  - destruct (isfile disk (path_join dir (basename path))) eqn:Hcand; [|done].
    injection H as <-. split; [done|]. right.
    destruct (candidate_in_dir dir path) as [Hb Hsep]. by repeat split.
Qed.

Lemma reconcile_sound_witness :
  isfile demo_disk "/downloads/a.mp4" = true
  ∧ basename "/downloads/a.mp4" = basename "/tmp/a.mp4".
Proof.
  destruct (reconcile_sound demo_disk "/downloads" "/tmp/a.mp4" "/downloads/a.mp4")
    as (_ & Hfile & [Heq|(_ & _ & Hbase & _)]).
  - vm_compute. reflexivity.
  - discriminate Heq.
  - split; [exact Hfile | exact Hbase].
Defined.

(** ** Which attributes an operation writes *)

Lemma foldl_add_link_shape (links : list string) :
  ∀ (w : MainWindow) (n : Z),
    ∃ q u c,
      (foldl add_link (w, n) links).1 = set_console c (set_queued_urls u (set_queue_list q w)).
Proof.
  induction links as [|l links IH]; intros w n; cbn [foldl].
  - exists (queue_list w), (queued_urls w), (console w). simpl. symmetry. apply window_eta.
  - destruct (decide (l ∈ queued_urls w)) as [Hin|Hout].
    + rewrite add_link_present by done. apply IH.
    + replace (add_link (w, n) l)
        with (_append_console ("[DEBUG] Добавлена полная ссылка: " +:+ l)
                (set_queued_urls (queued_urls w ++ [l])
                   (set_queue_list (queue_list w ++ [new_item l]) w)), n + 1)
        by (unfold add_link; by rewrite bool_decide_eq_false_2).
      match goal with |- context [foldl add_link (?w1, ?m) links] =>
        destruct (IH w1 m) as (q & u & c & ->) end.
      by exists q, u, c.
Qed.

Lemma add_links_shape (links : list string) (w : MainWindow) :
  ∃ q u c, _add_links links w = set_console c (set_queued_urls u (set_queue_list q w)).
Proof.
  destruct (foldl_add_link_shape links w 0) as (q & u & c & H). unfold _add_links.
  destruct (foldl add_link (w, 0) links) as [w' n]. simpl in H. subst w'.
  by exists q, u, (c ++ ["Добавлено ссылок: " +:+ pretty n]).
Qed.

Lemma remove_selected_shape (w w' : MainWindow) :
  remove_selected w = Ok w' →
  ∃ q u c, w' = set_console c (set_queued_urls u (set_queue_list q w)).
Proof.
  unfold remove_selected. destruct (remove_rows _ _ _) as [[[q u] c]|e]; [|done].
  intros [= <-]. by exists q, u, c.
Qed.

Lemma foldl_delete_file_shape (l : list string) :
  ∀ (disk : FileSystem) (w : MainWindow) (n : Z),
    ∃ c, (foldl delete_file (disk, w, n) l).1.2 = set_console c w.
Proof.
  induction l as [|f l IH]; intros disk w n; cbn [foldl].
  - exists (console w). simpl. by destruct w.
  - assert (∃ d1 c1 n1, delete_file (disk, w, n) f = (d1, set_console c1 w, n1))
      as (d1 & c1 & n1 & ->).
    { unfold delete_file. destruct (isfile disk f).
      - destruct (os_remove f disk).
        + do 3 eexists. f_equal. f_equal. instantiate (1 := console w). by destruct w.
        + do 3 eexists. reflexivity.
      - do 3 eexists. f_equal. f_equal. instantiate (1 := console w). by destruct w. }
    destruct (IH d1 (set_console c1 w) n1) as (c & ->). by exists c.
Qed.

Lemma reset_all_shape (res : StandardButton) (checked : bool) (p : Process) :
  res ≠ Cancel →
  win (reset_all res checked p)
  = set_global_progress (setValue 0 (global_progress (win p)))
      (set_downloaded_files [] (set_console [] (set_queued_urls [] (set_queue_list [] (win p)))))
  ∧ pools (reset_all res checked p) = pools p
  ∧ events (reset_all res checked p) = events p
  ∧ YT_DLP_AVAILABLE (reset_all res checked p) = YT_DLP_AVAILABLE p
  ∧ YoutubeDL (reset_all res checked p) = YoutubeDL p.
Proof.
  intros Hres. unfold reset_all. destruct res; [|done|done].
  destruct checked; simpl; [|done].
  destruct (foldl_delete_file_shape (downloaded_files (win p)) (fs p) (win p) 0) as (c & Hc).
  destruct (foldl delete_file _ _) as [[disk w] removed]. simpl in Hc. subst w. done.
Qed.

Lemma foldl_submit_row_shape (us : list string) :
  ∀ p,
    ∃ q,
      win (foldl submit_row p us)
      = set_queue_list q
          (set_running_count (running_count (win p) + Z.of_nat (length us)) (win p))
      ∧ YT_DLP_AVAILABLE (foldl submit_row p us) = YT_DLP_AVAILABLE p
      ∧ YoutubeDL (foldl submit_row p us) = YoutubeDL p.
Proof.
  induction us as [|u us IH]; intros p; cbn [foldl].
  - exists (queue_list (win p)). simpl. rewrite Z.add_0_r. split; [|done]. by destruct (win p).
  - destruct (IH (submit_row p u)) as (q & -> & -> & ->). exists q.
    split; [|done]. unfold set_queue_list, set_running_count. simpl. f_equal. lia.
Qed.

Lemma submit_all_shape (n : Z) (p : Process) :
  ∃ q c,
    win (_submit_all n p)
    = set_queue_list q
        (set_running_count (running_count (win p) + Z.of_nat (length (queue_list (win p))))
           (set_console c (win p)))
    ∧ YT_DLP_AVAILABLE (_submit_all n p) = YT_DLP_AVAILABLE p
    ∧ YoutubeDL (_submit_all n p) = YoutubeDL p.
Proof.
  unfold _submit_all.
  match goal with |- context [foldl submit_row ?p2 ?us] =>
    destruct (foldl_submit_row_shape us p2) as (q & -> & -> & ->) end.
  eexists q, _. simpl. rewrite length_map. split; [reflexivity|done].
Qed.

Lemma deliver_shape (s : Signal) (p : Process) :
  pending_signal s →
  ∃ g d c q,
    win (deliver s p)
    = set_global_progress g (set_downloaded_files d (set_console c (set_queue_list q (win p)))).
Proof.
  intros [u Hs]. destruct s as [t|u' pct|u' st|u' path|b]; simpl in Hs; try done.
  - eexists _, _, _, _. simpl. unfold _append_console.
    unfold set_global_progress, set_downloaded_files, set_console, set_queue_list.
    simpl. reflexivity.
  - eexists _, _, _, _. simpl. unfold _on_item_progress.
    unfold set_global_progress, set_downloaded_files, set_console, set_queue_list.
    simpl. reflexivity.
  - eexists _, _, _, _. simpl. unfold _on_item_status, _set_item_status.
    unfold set_global_progress, set_downloaded_files, set_console, set_queue_list.
    simpl. reflexivity.
  - simpl. unfold _on_item_finished.
    destruct (reconcile _ _ _); eexists _, _, _, _;
      unfold _set_item_status, set_global_progress, set_downloaded_files, set_console,
        set_queue_list; simpl; reflexivity.
Qed.

(** ** Housekeeping holds in every reachable state *)

Lemma row_ok_new_item (l : string) : row_ok (new_item l).
Proof. split; [done|]. by left. Qed.

Lemma Forall_update_first (P : QListWidgetItem → Prop) u f items :
  Forall P items → (∀ it, P it → P (f it)) → Forall P (update_first u f items).
Proof.
  intros Hall Hf. induction Hall as [|it rest Hit Hrest IH]; simpl; [constructor|].
  destruct (String.eqb (url (data it)) u); constructor; auto.
Qed.

Lemma row_ok_with_status (st : string) (it : QListWidgetItem) :
  known_status st → row_ok it → row_ok (with_status st it).
Proof. intros Hst [Hf _]. by split. Qed.

Lemma row_ok_with_progress (percent : Z) (it : QListWidgetItem) :
  row_ok it → row_ok (with_progress percent it).
Proof. intros [Hf Hs]. by split. Qed.

Lemma foldl_mark_rows_ok (st : string) (us : list string) :
  known_status st →
  ∀ items, Forall row_ok items →
           Forall row_ok (foldl (fun q u => update_first u (with_status st) q) items us).
Proof.
  intros Hst. induction us as [|u us IH]; intros items Hall; simpl; [done|].
  apply IH, Forall_update_first; [done|]. intros it. by apply row_ok_with_status.
Qed.

Lemma setValue_le (v : Z) (bar : QProgressBar) :
  v ≤ maximum bar → value bar ≤ maximum bar →
  value (setValue v bar) ≤ maximum (setValue v bar).
Proof. unfold setValue. intros Hv Hbar. by destruct (_ && _). Qed.

Lemma setMaximum_le (m : Z) (bar : QProgressBar) :
  -1 ≤ m → value (setMaximum m bar) ≤ maximum (setMaximum m bar).
Proof.
  unfold setMaximum. intros Hm. simpl.
  destruct (value bar <? -1) eqn:E1; simpl; [done|].
  destruct (m <? value bar) eqn:E2; simpl; lia.
Qed.

Lemma active_worker_has_worker (pool k : nat) (p : Process) (wk : DownloadWorker) :
  active_worker pool k p = Some wk → Exists has_worker (pools p).
Proof.
  unfold active_worker. destruct (pools p !! pool) as [pl|] eqn:Hpl; simpl; [|done].
  intros Hk. apply Exists_exists. exists pl. split; [by eapply list_elem_of_lookup_2|].
  left. intros Hnil. by rewrite Hnil in Hk.
Qed.

Lemma housekeeping_set_win (p : Process) (w' : MainWindow) :
  housekeeping p →
  stop_btn w' = negb (start_btn w') →
  Forall row_ok (queue_list w') →
  value (global_progress w') ≤ maximum (global_progress w') →
  housekeeping (set_win w' p).
Proof. intros (K1 & K2 & K3 & K4 & K5 & K6) Hbtn Hrows Hbar. by unfold housekeeping. Qed.

Lemma deliver_globals (s : Signal) (p : Process) :
  events (deliver s p) = events p
  ∧ YT_DLP_AVAILABLE (deliver s p) = YT_DLP_AVAILABLE p
  ∧ YoutubeDL (deliver s p) = YoutubeDL p
  ∧ fs (deliver s p) = fs p.
Proof. by destruct s. Qed.

Lemma deliver_rows_bar (u : string) (s : Signal) (p : Process) :
  fetched_signal u s →
  Forall row_ok (queue_list (win p)) →
  bar_ok (global_progress (win p)) →
  value (global_progress (win p)) ≤ maximum (global_progress (win p)) →
  Forall row_ok (queue_list (win (deliver s p)))
  ∧ value (global_progress (win (deliver s p))) ≤ maximum (global_progress (win (deliver s p))).
Proof.
  intros Hs Hrows [Hb1 Hb2] Hle.
  destruct s as [t|u' pct|u' st|u' path|b]; simpl in Hs; try done.
  - split; [|done]. simpl. apply Forall_update_first; [done|].
    intros it. apply row_ok_with_progress.
  - split; [|done]. simpl. apply Forall_update_first; [done|].
    intros it. apply row_ok_with_status.
    destruct Hs as [_ [->| ->]]; unfold known_status; auto.
  - simpl. unfold _on_item_finished.
    destruct (reconcile _ _ _); simpl; (split;
      [apply Forall_update_first; [done|]; intros it; apply row_ok_with_status;
       unfold known_status; auto 6
      |apply setValue_le; [lia|done]]).
Qed.

Lemma housekeeping_initial dir disk available ideal :
  housekeeping (initial dir disk available ideal).
Proof.
  unfold housekeeping, initial. simpl. split; [done|]. split.
  - intros H. apply Exists_exists in H as (pl & Hpl & [Ha|Hq]).
    + apply list_elem_of_singleton in Hpl. by subst pl.
    + apply list_elem_of_singleton in Hpl. by subst pl.
  - split; [done|]. split; [constructor|]. split; [lia|constructor].
Qed.

Lemma exec_housekeeping (float_percent : Z → Z → Z) (a : Action) (p p' : Process) :
  invariant p → housekeeping p → exec float_percent a p = Some p' → housekeeping p'.
Proof.
  intros Hinv Hk Hexec.
  pose proof Hinv as (Hsync & Hspin & Hbar & Hpools & Hcur & Hev).
  pose proof Hk as (K1 & K2 & K3 & K4 & K5 & K6).
  destruct a as [links|row on| |d|m| | |reply|res checked|code err|pool k f j|pool k| ];
    simpl in Hexec.
  - injection Hexec as <-. destruct (add_links_shape links (win p)) as (q & u & c & Hs).
    apply housekeeping_set_win; [done| | |].
    + by rewrite Hs.
    + destruct (add_links_queue links (win p)) as [-> _].
      destruct (foldl_add_link_rows links (win p) 0) as (added & ->).
      apply Forall_app_2; [done|]. apply Forall_fmap, Forall_forall.
      intros l _. apply row_ok_new_item.
    + by rewrite Hs.
  - injection Hexec as <-. apply housekeeping_set_win; [done|done| |done].
    simpl. apply Forall_alter; [done|]. by intros it _ [? ?].
  - destruct (remove_selected_sync (win p) Hsync) as (w' & Hrm & _ & Hsub & _ & F2 & F3 & _ & F5).
    rewrite Hrm in Hexec. injection Hexec as <-.
    apply housekeeping_set_win; [done| | |].
    + by rewrite F2, F3.
    + apply Forall_forall. intros it Hit.
      apply (Forall_forall row_ok (queue_list (win p))); [done|].
      by eapply sublist_subseteq.
    + by rewrite F5.
  - injection Hexec as <-.
    apply housekeeping_set_win; [done| | |]; unfold choose_dir;
      by destruct (String.eqb d "").
  - destruct (_ && _); [|done]. injection Hexec as <-. by apply housekeeping_set_win.
  - injection Hexec as <-. by apply housekeeping_set_win.
  - destruct (start_btn (win p)) eqn:Hbtn; [|done]. injection Hexec as <-.
    unfold start_downloads. destruct (queued_urls (win p)) as [|u0 us0] eqn:Hq; [done|].
    destruct (YT_DLP_AVAILABLE p) eqn:Hyt; simpl; [|done].
    match goal with |- housekeeping (_submit_all ?n ?q) => set (p4 := q) end.
    destruct (submit_all_shape (threads_spin (win p)) p4) as (q & c & Hwin & Hyt' & Hyd').
    destruct (submit_all_spec (threads_spin (win p)) p4)
      as (_ & _ & _ & I4 & _ & I6 & I7 & _).
    unfold housekeeping. rewrite Hyt', Hyd', I4, I6, I7.
    split; [intros _; by apply K1|]. split; [intros _; by apply K1|].
    split; [by rewrite Hwin|].
    split; [apply foldl_mark_rows_ok; [unfold known_status; auto|done]|].
    split; [|done]. subst p4. simpl. apply setMaximum_le. lia.
  - destruct (stop_btn (win p)); [|done]. injection Hexec as <-.
    destruct (decide (reply = Yes)) as [->|Hne].
    2:{ unfold stop_downloads. by rewrite bool_decide_eq_false_2. }
    destruct (stop_downloads_spec p) as (H1 & _).
    unfold housekeeping. rewrite H1. unfold stop_downloads. simpl.
    split; [done|]. split; [|done].
    intros [H|H]%Exists_app; [by apply K2|].
    apply Exists_exists in H as (pl & Hpl & [Ha|Hqq]);
      apply list_elem_of_singleton in Hpl; by subst pl.
  - injection Hexec as <-. destruct (decide (res = Cancel)) as [->|Hres]; [done|].
    destruct (reset_all_shape res checked p Hres) as (Hw & Hp & He & Hyt & Hyd).
    unfold housekeeping. rewrite Hw, Hp, He, Hyt, Hyd. simpl.
    do 3 (split; [done|]). split; [constructor|]. split; [|done].
    destruct Hbar as [_ Hmax]. apply setValue_le; [lia|done].
  - injection Hexec as <-. unfold _on_pip_finished, housekeeping.
    destruct err as [e|]; simpl; repeat split; try done.
  - destruct (active_worker pool k p) as [wk|] eqn:Hwk; [|done]. simpl in Hexec.
    destruct (_ !! j) as [s|] eqn:Hs; [|done]. simpl in Hexec. injection Hexec as <-.
    unfold housekeeping. simpl. do 5 (split; [done|]).
    apply Forall_app. split; [done|]. constructor; [|constructor]. exists (w_url wk).
    rewrite (K2 (active_worker_has_worker _ _ _ _ Hwk)) in Hs.
    eapply Forall_lookup_1; [apply run_fetched_signals|exact Hs].
  - destruct (active_worker pool k p) as [wk|] eqn:Hwk; [|done]. simpl in Hexec.
    injection Hexec as <-. unfold housekeeping. simpl.
    split; [done|]. split; [|done]. intros _.
    by apply K2, (active_worker_has_worker pool k p wk).
  - destruct (events p) as [|s rest] eqn:He; [done|]. injection Hexec as <-.
    apply Forall_cons in K6 as [[u Hs] Hrest].
    apply Forall_cons in Hev as [Hpend _].
    destruct (deliver_globals s (set_events rest p)) as (G1 & G2 & G3 & _).
    destruct (deliver_frame s (set_events rest p) Hpend) as (_ & F2 & F3 & F4).
    destruct (deliver_rows_bar u s (set_events rest p) Hs K4 Hbar K5) as [Hrows Hle].
    unfold housekeeping. rewrite G1, G2, G3, F2, F3, F4. done.
Qed.

Lemma steps_housekeeping (float_percent : Z → Z → Z) (p p' : Process) :
  rtc (step float_percent) p p' → invariant p → housekeeping p →
  invariant p' ∧ housekeeping p'.
Proof.
  induction 1 as [|p1 p2 p3 [a Ha] _ IH]; [done|].
  intros Hinv Hk. apply IH.
  - by eapply exec_invariant.
  - by eapply exec_housekeeping.
Qed.

Lemma reachable_housekeeping (float_percent : Z → Z → Z) (p : Process) :
  reachable float_percent p → invariant p ∧ housekeeping p.
Proof.
  intros (dir & disk & available & ideal & Hideal & Hsteps).
  eapply steps_housekeeping; [exact Hsteps| |].
  - apply invariant_initial. lia.
  - apply housekeeping_initial.
Qed.

(** ** What holds in every state the program can reach *)

(** X9.  In every reachable state the url list holds exactly the urls of
    the rows, in row order and without repetition, whatever sequence of
    user actions, worker signals and deliveries led there; so the
    [list.remove] of [remove_selected] never raises [ValueError]. *)
Theorem reachable_in_sync (float_percent : Z → Z → Z) (p : Process) :
  reachable float_percent p →
  item_urls (win p) = queued_urls (win p)
  ∧ NoDup (queued_urls (win p))
  ∧ ∃ w', remove_selected (win p) = Ok w'.
Proof.
  intros Hreach. destruct (reachable_invariant _ _ Hreach) as (Hsync & _).
  destruct (remove_selected_sync (win p) Hsync) as (w' & Hrm & _).
  destruct Hsync as [Hurls Hnd]. eauto.
Qed.

Lemma reachable_in_sync_witness :
  item_urls (win demo_started) = queued_urls (win demo_started)
  ∧ NoDup (queued_urls (win demo_started))
  ∧ ∃ w', remove_selected (win demo_started) = Ok w'.
Proof. exact (reachable_in_sync exact_percent demo_started demo_started_reachable). Defined.

(** X10.  In every reachable state each thread pool, the window's and
    the ones left behind by Stop, executes at most as many workers as
    its own thread limit; the window's pool exists, the spin box is in
    1..16, and whenever Start is enabled the window's pool is idle. *)
Theorem reachable_pools_bounded (float_percent : Z → Z → Z) (p : Process) :
  reachable float_percent p →
  (∀ i pl, pools p !! i = Some pl →
           Z.of_nat (length (activeThreads pl)) ≤ maxThreadCount pl)
  ∧ is_Some (pools p !! threadpool (win p))
  ∧ 1 ≤ threads_spin (win p) ≤ 16
  ∧ (start_btn (win p) = true →
     ∃ pl, pools p !! threadpool (win p) = Some pl
           ∧ activeThreads pl = [] ∧ runQueue pl = []).
Proof.
  intros Hreach.
  destruct (reachable_invariant _ _ Hreach) as (_ & Hspin & _ & Hpools & [Hidx Hidle] & _).
  split; [|split; [|split; [done|]]].
  - intros i pl Hpl. by apply (Forall_lookup_1 pool_bounded (pools p) i pl).
  - by apply lookup_lt_is_Some.
  - intros Hbtn. destruct (Hidle Hbtn) as (pl & Hpl & Ha & Hq). eauto.
Qed.

Lemma reachable_pools_bounded_witness :
  Forall (fun pl => Z.of_nat (length (activeThreads pl)) ≤ maxThreadCount pl)
         (pools demo_started)
  ∧ 1 ≤ threads_spin (win demo_started) ≤ 16.
Proof.
  destruct (reachable_pools_bounded exact_percent demo_started demo_started_reachable)
    as (H1 & _ & H3 & _).
  split; [|exact H3]. apply Forall_lookup. exact H1.
Defined.

Lemma exec_start_btn (float_percent : Z → Z → Z) (a : Action) (p p' : Process) :
  invariant p → exec float_percent a p = Some p' →
  start_btn (win p) = false → start_btn (win p') = true → a = UserStop Yes.
Proof.
  intros Hinv Hexec Hoff Hon.
  pose proof Hinv as (Hsync & Hspin & Hbar & Hpools & Hcur & Hev).
  destruct a as [links|row on| |d|m| | |reply|res checked|code err|pool k f j|pool k| ];
    simpl in Hexec.
  - injection Hexec as <-. destruct (add_links_frame links (win p)) as (_ & F2 & _).
    simpl in Hon. congruence.
  - injection Hexec as <-. simpl in Hon. congruence.
  - destruct (remove_selected_sync (win p) Hsync) as (w' & Hrm & _ & _ & _ & F2 & _).
    rewrite Hrm in Hexec. injection Hexec as <-. simpl in Hon. congruence.
  - injection Hexec as <-. simpl in Hon. unfold choose_dir in Hon.
    destruct (negb _); simpl in Hon; congruence.
  - destruct (_ && _); [|done]. injection Hexec as <-. simpl in Hon. congruence.
  - injection Hexec as <-. simpl in Hon. congruence.
  - by rewrite Hoff in Hexec.
  - destruct (stop_btn (win p)); [|done]. injection Hexec as <-.
    destruct (decide (reply = Yes)) as [->|Hne]; [done|].
    unfold stop_downloads in Hon. rewrite bool_decide_eq_false_2 in Hon by done. congruence.
  - injection Hexec as <-.
    destruct (reset_all_frame res checked p) as (_ & F2 & _). congruence.
  - injection Hexec as <-.
    destruct (pip_finished_frame code err p) as (_ & _ & _ & _ & _ & F6 & _). congruence.
  - destruct (active_worker pool k p) as [wk|]; [|done]. simpl in Hexec.
    destruct (_ !! j) as [s|]; [|done]. simpl in Hexec. injection Hexec as <-.
    simpl in Hon. congruence.
  - destruct (active_worker pool k p) as [wk|]; [|done]. simpl in Hexec.
    injection Hexec as <-. simpl in Hon. congruence.
  - destruct (events p) as [|s rest] eqn:He; [done|]. injection Hexec as <-.
    apply Forall_cons in Hev as [Hs _].
    destruct (deliver_frame s (set_events rest p) Hs) as (_ & F2 & _).
    simpl in F2. congruence.
Qed.

(** X11.  In every reachable state exactly one of the Start and Stop
    buttons is enabled; and once Start is disabled, the only thing that
    enables it again is a Stop answered with Yes: no worker signal does,
    not even when the whole batch has finished. *)
Theorem start_enabled_only_by_stop (float_percent : Z → Z → Z) (p : Process) :
  reachable float_percent p →
  stop_btn (win p) = negb (start_btn (win p))
  ∧ ∀ a p', exec float_percent a p = Some p' →
            start_btn (win p) = false → start_btn (win p') = true →
            a = UserStop Yes.
Proof.
  intros Hreach. destruct (reachable_housekeeping _ _ Hreach) as [Hinv (_ & _ & K3 & _)].
  split; [done|]. intros a p' Hexec. by eapply exec_start_btn.
Qed.

Lemma start_enabled_only_by_stop_witness :
  stop_btn (win demo_started) = negb (start_btn (win demo_started)).
Proof.
  exact (proj1 (start_enabled_only_by_stop exact_percent demo_started demo_started_reachable)).
Defined.

Lemma deliver_running_count (s : Signal) (p : Process) :
  running_count (win (deliver s p)) = running_count (win p).
Proof.
  destruct s; try reflexivity. simpl. unfold _on_item_finished.
  by destruct (reconcile _ _ _).
Qed.

(** X12.  [running_count] is set by an accepted Start to the number of
    rows handed to the pool, and no other event changes it: it does not
    go down when workers return or signals are delivered. *)
Theorem running_count_only_set_by_start (float_percent : Z → Z → Z) (p : Process) :
  (∀ a p', a ≠ UserStart → exec float_percent a p = Some p' →
           running_count (win p') = running_count (win p))
  ∧ (queued_urls (win p) ≠ [] → YT_DLP_AVAILABLE p = true →
     running_count (win (start_downloads p).1) = Z.of_nat (length (queue_list (win p)))).
Proof.
  split.
  - intros a p' Hstart Hexec.
    destruct a as [links|row on| |d|m| | |reply|res checked|code err|pool k f j|pool k| ];
      simpl in Hexec; try done.
    + injection Hexec as <-. simpl.
      by destruct (add_links_shape links (win p)) as (q & u & c & ->).
    + by injection Hexec as <-.
    + destruct (remove_selected (win p)) as [w'|e] eqn:Hrm; [|done].
      injection Hexec as <-. simpl.
      by destruct (remove_selected_shape _ _ Hrm) as (q & u & c & ->).
    + injection Hexec as <-. simpl. unfold choose_dir. by destruct (negb _).
    + destruct (_ && _); [|done]. by injection Hexec as <-.
    + by injection Hexec as <-.
    + destruct (stop_btn (win p)); [|done]. injection Hexec as <-.
      unfold stop_downloads. by destruct (bool_decide _).
    + injection Hexec as <-. destruct (decide (res = Cancel)) as [->|Hres]; [done|].
      by destruct (reset_all_shape res checked p Hres) as (-> & _).
    + injection Hexec as <-. unfold _on_pip_finished. by destruct err.
    + destruct (active_worker pool k p) as [wk|]; [|done]. simpl in Hexec.
      destruct (_ !! j) as [s|]; [|done]. simpl in Hexec. by injection Hexec as <-.
    + destruct (active_worker pool k p) as [wk|]; [|done]. simpl in Hexec.
      by injection Hexec as <-.
    + destruct (events p) as [|s rest]; [done|]. injection Hexec as <-.
      by rewrite deliver_running_count.
  - intros Hq Hyt. unfold start_downloads.
    destruct (queued_urls (win p)); [done|]. rewrite Hyt. simpl.
    match goal with |- context [_submit_all ?n ?q] =>
      destruct (submit_all_shape n q) as (rows & c & -> & _) end.
    simpl. lia.
Qed.

Lemma running_count_only_set_by_start_witness :
  running_count (win (start_downloads demo).1) = Z.of_nat (length (queue_list (win demo))).
Proof.
  apply (proj2 (running_count_only_set_by_start exact_percent demo)); [|reflexivity].
  vm_compute. discriminate.
Defined.

(** X13.  In every reachable state in which some pool holds a worker,
    the module global [YoutubeDL] is the class: a worker never takes the
    ['missing yt-dlp'] way out of [run].  Accordingly no pending signal
    carries that status; the only statuses workers send are ['done'] and
    ['error']. *)
Theorem workers_find_youtubedl (float_percent : Z → Z → Z) (p : Process) :
  reachable float_percent p →
  (∀ pool k wk, active_worker pool k p = Some wk → YoutubeDL p = true)
  ∧ (YT_DLP_AVAILABLE p = true → YoutubeDL p = true)
  ∧ (∀ u st, item_status u st ∈ events p → st = "done" ∨ st = "error").
Proof.
  intros Hreach.
  destruct (reachable_housekeeping _ _ Hreach) as [_ (K1 & K2 & _ & _ & _ & K6)].
  split; [|split; [done|]].
  - intros pool k wk Hwk. by apply K2, (active_worker_has_worker pool k p wk).
  - intros u st Hin. apply (Forall_forall _ (events p)) with (x := item_status u st) in K6;
      [|done].
    by destruct K6 as (u' & _ & Hst).
Qed.

Lemma workers_find_youtubedl_witness :
  active_worker 0 0 demo_started = Some demo_worker ∧ YoutubeDL demo_started = true.
Proof.
  assert (Hwk : active_worker 0 0 demo_started = Some demo_worker)
    by (vm_compute; reflexivity).
  split; [exact Hwk|].
  exact (proj1 (workers_find_youtubedl exact_percent demo_started demo_started_reachable)
           0%nat 0%nat demo_worker Hwk).
Defined.

(** X14.  In every reachable state no row has its [filepath] written
    (the output path of an item stays empty for ever), and the status of
    every row is one of ['queued'], ['running'], ['done'], ['error'] and
    ['completed']. *)
Theorem reachable_rows (float_percent : Z → Z → Z) (p : Process) :
  reachable float_percent p →
  ∀ it, it ∈ queue_list (win p) →
        filepath (data it) = ""
        ∧ (status (data it) = "queued" ∨ status (data it) = "running"
           ∨ status (data it) = "done" ∨ status (data it) = "error"
           ∨ status (data it) = "completed").
Proof.
  intros Hreach it Hit.
  destruct (reachable_housekeeping _ _ Hreach) as [_ (_ & _ & _ & K4 & _)].
  by apply (Forall_forall row_ok (queue_list (win p))).
Qed.

Lemma reachable_rows_witness :
  Forall (fun it => filepath (data it) = ""
                    ∧ (status (data it) = "queued" ∨ status (data it) = "running"
                       ∨ status (data it) = "done" ∨ status (data it) = "error"
                       ∨ status (data it) = "completed"))
         (queue_list (win demo_started)).
Proof.
  apply Forall_forall.
  exact (reachable_rows exact_percent demo_started demo_started_reachable).
Defined.

(** X15.  In every reachable state the batch counter lies between -1
    (a bar never started) and its maximum, and the maximum is not
    negative: the counter never passes the batch total. *)
Theorem reachable_counter_in_range (float_percent : Z → Z → Z) (p : Process) :
  reachable float_percent p →
  -1 ≤ value (global_progress (win p)) ≤ maximum (global_progress (win p))
  ∧ 0 ≤ maximum (global_progress (win p)).
Proof.
  intros Hreach.
  destruct (reachable_housekeeping _ _ Hreach)
    as [(_ & _ & [Hlow Hmax] & _) (_ & _ & _ & _ & K5 & _)].
  done.
Qed.

Lemma reachable_counter_in_range_witness :
  -1 ≤ value (global_progress (win demo_started)) ≤ maximum (global_progress (win demo_started))
  ∧ 0 ≤ maximum (global_progress (win demo_started)).
Proof.
  exact (reachable_counter_in_range exact_percent demo_started demo_started_reachable).
Defined.

(** ** Start, reset and the end of pip *)

Lemma foldl_submit_row_rest (us : list string) :
  ∀ p,
    fs (foldl submit_row p us) = fs p
    ∧ length (pools (foldl submit_row p us)) = length (pools p).
Proof.
  induction us as [|u us IH]; intros p; cbn [foldl]; [done|].
  destruct (IH (submit_row p u)) as [-> ->].
  unfold submit_row, on_threadpool. simpl. by rewrite length_alter.
Qed.

Lemma submit_all_rest (n : Z) (p : Process) :
  let p' := _submit_all n p in
  console (win p')
  = console (win p)
    ++ ["Запуск скачивания " +:+ pretty (Z.of_nat (length (queued_urls (win p))))
        +:+ " файлов (" +:+ pretty n +:+ " потоков)"]
  ∧ downloaded_files (win p') = downloaded_files (win p)
  ∧ download_dir (win p') = download_dir (win p)
  ∧ stop_btn (win p') = stop_btn (win p)
  ∧ install_btn (win p') = install_btn (win p)
  ∧ fs p' = fs p
  ∧ length (pools p') = length (pools p).
Proof.
  unfold _submit_all. cbv zeta.
  match goal with |- context [foldl submit_row ?p2 ?us] =>
    destruct (foldl_submit_row_shape us p2) as (q & Hw & _);
    destruct (foldl_submit_row_rest us p2) as [R1 R2];
    rewrite Hw, R1, R2
  end.
  simpl. by rewrite length_alter.
Qed.

(** X16.  An accepted Start in a reachable state: no warning box; Start
    and the install button are disabled and Stop enabled; the bar shows
    0 of [len(queued_urls)]; the console gets exactly one line, with the
    number of links and of threads; the files recorded by earlier
    batches stay recorded; no pool object is created, the disk and the
    pending signals are left alone. *)
Theorem start_downloads_accepted (float_percent : Z → Z → Z) (p : Process) :
  reachable float_percent p →
  queued_urls (win p) ≠ [] →
  YT_DLP_AVAILABLE p = true →
  let p' := (start_downloads p).1 in
  (start_downloads p).2 = None
  ∧ start_btn (win p') = false ∧ stop_btn (win p') = true ∧ install_btn (win p') = false
  ∧ global_progress (win p')
    = {| value := 0; maximum := Z.of_nat (length (queued_urls (win p))) |}
  ∧ console (win p')
    = console (win p)
      ++ ["Запуск скачивания " +:+ pretty (Z.of_nat (length (queued_urls (win p))))
          +:+ " файлов (" +:+ pretty (threads_spin (win p)) +:+ " потоков)"]
  ∧ downloaded_files (win p') = downloaded_files (win p)
  ∧ download_dir (win p') = download_dir (win p)
  ∧ length (pools p') = length (pools p)
  ∧ fs p' = fs p ∧ events p' = events p.
Proof.
  intros Hreach Hq Hyt.
  destruct (reachable_invariant _ _ Hreach) as (_ & _ & [_ Hmax] & _).
  assert (Hbar : setMaximum (Z.of_nat (length (queued_urls (win p))))
                   (setValue 0 (global_progress (win p)))
                 = {| value := 0; maximum := Z.of_nat (length (queued_urls (win p))) |}).
  { unfold setMaximum, setValue.
    destruct (maximum (global_progress (win p)) <? 0) eqn:E; [exfalso; lia|]. simpl.
    destruct (Z.of_nat (length (queued_urls (win p))) <? 0) eqn:E'; [apply Z.ltb_lt in E'; exfalso; lia|done]. }
  unfold start_downloads. destruct (queued_urls (win p)) as [|u us] eqn:Hus; [done|].
  rewrite Hyt. cbn [negb fst snd]. cbv zeta.
  match goal with |- context [_submit_all ?n ?q] =>
    destruct (submit_all_spec n q) as (_ & _ & _ & S4 & S5 & S6 & _);
    destruct (submit_all_rest n q) as (R1 & R2 & R3 & R4 & R5 & R6 & R7)
  end.
  rewrite S4, S5, S6, R1, R2, R3, R4, R5, R6, R7. rewrite <- Hus in Hbar. simpl.
  rewrite Hbar, Hus. done.
Qed.

Lemma start_downloads_accepted_witness :
  (start_downloads demo).2 = None
  ∧ global_progress (win demo_started) = {| value := 0; maximum := 1 |}.
Proof.
  pose proof (start_downloads_accepted exact_percent demo demo_reachable
                ltac:(vm_compute; discriminate) eq_refl) as (H1 & _ & _ & _ & H5 & _).
  split; [exact H1|exact H5].
Defined.

(** X17.  A recorded file that [os.remove] refuses to delete survives a
    Reset with the check box ticked, but the same call drops the record
    of it and empties the console, error message included; so no later
    Reset, whatever the answer, deletes it. *)
Theorem reset_all_forgets_failed_deletions (p : Process) (f : string) :
  f ∈ downloaded_files (win p) →
  f ∈ files (fs p) →
  f ∈ undeletable (fs p) →
  let p' := reset_all Yes true p in
  isfile (fs p') f = true
  ∧ downloaded_files (win p') = []
  ∧ console (win p') = []
  ∧ ∀ res checked, isfile (fs (reset_all res checked p')) f = true.
Proof.
  intros Hrec Hfile Hun. cbv zeta.
  assert (Hkept : f ∈ files (fs (reset_all Yes true p))).
  { rewrite reset_all_files. simpl. set_solver. }
  destruct (reset_all_queue Yes true p) as (_ & _ & Hc & Hd); [done|].
  split; [by apply bool_decide_eq_true_2|]. split; [done|]. split; [done|].
  intros res checked. apply bool_decide_eq_true_2. rewrite reset_all_files.
  destruct (bool_decide (res = Yes) && checked); [|done].
  rewrite Hd. set_solver.
Qed.

Lemma reset_all_forgets_failed_deletions_witness :
  let p := set_fs {| files := {[ "/downloads/a.mp4" ]}; undeletable := {[ "/downloads/a.mp4" ]} |}
             (in_win (set_downloaded_files ["/downloads/a.mp4"]) demo) in
  isfile (fs (reset_all Yes true p)) "/downloads/a.mp4" = true
  ∧ downloaded_files (win (reset_all Yes true p)) = [].
Proof.
  intros p.
  pose proof (reset_all_forgets_failed_deletions p "/downloads/a.mp4"
                ltac:(apply list_elem_of_singleton; reflexivity)
                ltac:(vm_compute; reflexivity)
                ltac:(vm_compute; reflexivity)) as (H1 & H2 & _).
  split; [exact H1|exact H2].
Defined.

(** X18.  Reset answered with Yes or No stops nothing: the pools with
    their running and waiting workers, the pending signals, the Start
    and Stop buttons, [running_count] and the maximum of the bar are as
    before.  When the [finished] signal of such a worker is delivered
    afterwards its row is gone, yet the file is still recorded (when it
    is found) and the bar, put back to 0, counts it. *)
Theorem reset_all_leaves_workers (res : StandardButton) (checked : bool) (p : Process)
    (u path : string) :
  res ≠ Cancel →
  0 ≤ maximum (global_progress (win p)) →
  let p' := reset_all res checked p in
  pools p' = pools p ∧ events p' = events p
  ∧ start_btn (win p') = start_btn (win p) ∧ stop_btn (win p') = stop_btn (win p)
  ∧ running_count (win p') = running_count (win p)
  ∧ maximum (global_progress (win p')) = maximum (global_progress (win p))
  ∧ let w := _on_item_finished (fs p') u path (win p') in
    queue_list w = []
    ∧ downloaded_files w
      = match reconcile (fs p') (download_dir (win p)) path with
        | Some f => [f]
        | None => []
        end
    ∧ value (global_progress w) = Z.min (maximum (global_progress (win p))) 1.
Proof.
  intros Hres Hmax p'.
  destruct (reset_all_shape res checked p Hres) as (Hwin & Hpools & Hev & _).
  assert (Hzero : setValue 0 (global_progress (win p))
                  = {| value := 0; maximum := maximum (global_progress (win p)) |}).
  { unfold setValue.
    destruct (maximum (global_progress (win p)) <? 0) eqn:E; [exfalso; lia|done]. }
  unfold p'. rewrite Hwin, Hpools, Hev, Hzero. simpl.
  do 6 (split; [done|]).
  unfold _on_item_finished. simpl.
  destruct (reconcile _ _ _) as [f|]; simpl.
  - split; [done|]. split; [done|]. unfold setValue. simpl.
    destruct (_ && _) eqn:E; simpl; [|done].
    apply andb_prop in E as [E1 E2]. apply orb_prop in E1 as [E1|E1]; lia.
  - split; [done|]. split; [done|]. unfold setValue. simpl.
    destruct (_ && _) eqn:E; simpl; [|done].
    apply andb_prop in E as [E1 E2]. apply orb_prop in E1 as [E1|E1]; lia.
Qed.

Lemma reset_all_leaves_workers_witness :
  pools (reset_all No false demo_started) = pools demo_started
  ∧ downloaded_files
      (_on_item_finished (fs (reset_all No false demo_started)) demo_url "/downloads/a.mp4"
         (win (reset_all No false demo_started)))
    = ["/downloads/a.mp4"].
Proof.
  pose proof (reset_all_leaves_workers No false demo_started demo_url "/downloads/a.mp4"
                ltac:(discriminate) ltac:(vm_compute; discriminate))
    as (H1 & _ & _ & _ & _ & _ & _ & H8 & _).
  split; [exact H1|]. rewrite H8. vm_compute. reflexivity.
Defined.

(** X19.  The end of pip.  The exit code of pip is only printed: what
    happens next depends on the import alone.  If the import works both
    globals are set and the install button is disabled, and a Start
    with links in the queue is accepted.  If it raises, the flag is
    cleared, [YoutubeDL] keeps what it was, the install button is
    enabled, and Start is refused with a box.  Either way the rows, the
    pools, the pending signals and the Start and Stop buttons are left
    alone. *)
Theorem pip_finished_effects (code : Z) (p : Process) :
  (let p' := _on_pip_finished code None p in
   YT_DLP_AVAILABLE p' = true ∧ YoutubeDL p' = true
   ∧ install_btn (win p') = false
   ∧ console (win p')
     = console (win p) ++ ["pip finished with code " +:+ pretty code;
                           "yt-dlp успешно импортирован"]
   ∧ (queued_urls (win p) ≠ [] → (start_downloads p').2 = None))
  ∧ (∀ e, let p' := _on_pip_finished code (Some e) p in
          YT_DLP_AVAILABLE p' = false ∧ YoutubeDL p' = YoutubeDL p
          ∧ install_btn (win p') = true
          ∧ console (win p')
            = console (win p) ++ ["pip finished with code " +:+ pretty code;
                                  "Не удалось импортировать yt-dlp: " +:+ e]
          ∧ ∃ box, start_downloads p' = (p', Some box))
  ∧ (∀ r, let p' := _on_pip_finished code r p in
          queue_list (win p') = queue_list (win p)
          ∧ queued_urls (win p') = queued_urls (win p)
          ∧ start_btn (win p') = start_btn (win p)
          ∧ stop_btn (win p') = stop_btn (win p)
          ∧ pools p' = pools p ∧ events p' = events p ∧ fs p' = fs p).
Proof.
  split; [|split].
  - simpl. do 3 (split; [done|]). split.
    + unfold _append_console. simpl. by rewrite <- app_assoc.
    + intros Hq. unfold start_downloads. simpl.
      by destruct (queued_urls (win p)).
  - intros e. simpl. do 3 (split; [done|]). split.
    + unfold _append_console. simpl. by rewrite <- app_assoc.
    + unfold start_downloads. simpl.
      destruct (queued_urls (win p)); eauto.
  - intros r. unfold _on_pip_finished. by destruct r.
Qed.

Lemma pip_finished_effects_witness :
  (start_downloads (_on_pip_finished 0 None (set_globals false false demo))).2 = None.
Proof.
  apply (proj1 (pip_finished_effects 0 (set_globals false false demo))).
  vm_compute. discriminate.
Defined.

(** ** The three add actions *)

Lemma add_links_grows (links : list string) (w : MainWindow) :
  in_sync w →
  in_sync (_add_links links w)
  ∧ queue_list w `prefix_of` queue_list (_add_links links w)
  ∧ downloaded_files (_add_links links w) = downloaded_files w
  ∧ global_progress (_add_links links w) = global_progress w
  ∧ start_btn (_add_links links w) = start_btn w.
Proof.
  intros Hsync. split; [by apply add_links_sync|]. split.
  - destruct (foldl_add_link_added links w 0) as (added & w' & Hfold & Hq & _).
    unfold _add_links. rewrite Hfold. simpl. rewrite Hq. by eexists.
  - by destruct (add_links_shape links w) as (q & u & c & ->).
Qed.

(** X20.  Each of the three add actions, the single line, the batch box
    and the free-text box, leaves the url list and the rows in step,
    keeps the rows that were there as the first rows, in order, and
    touches neither the recorded files, the bar nor the Start button;
    and whenever it shows a message box, it has changed nothing: the
    window and the three inputs are as before. *)
Theorem add_actions_safe (strip : string → string) (splitlines : string → list string)
    (findall : string → list string) (ins : Inputs) (w : MainWindow) :
  in_sync w →
  Forall (fun r : Inputs * MainWindow * option MessageBox =>
            in_sync r.1.2
            ∧ queue_list w `prefix_of` queue_list r.1.2
            ∧ downloaded_files r.1.2 = downloaded_files w
            ∧ global_progress r.1.2 = global_progress w
            ∧ start_btn r.1.2 = start_btn w
            ∧ (is_Some r.2 → r.1.1 = ins ∧ r.1.2 = w))
    [add_single strip findall ins w;
     add_batch strip splitlines findall ins w;
     extract_links findall ins w].
Proof.
  intros Hsync.
  assert (Hsame : in_sync w ∧ queue_list w `prefix_of` queue_list w
                  ∧ downloaded_files w = downloaded_files w
                  ∧ global_progress w = global_progress w
                  ∧ start_btn w = start_btn w) by done.
  repeat apply Forall_cons_2; [..|apply Forall_nil_2].
  - unfold add_single. destruct (String.eqb _ ""); simpl.
    + destruct Hsame as (? & ? & ? & ? & ?). by repeat (split; [done|]).
    + destruct (add_links_grows (_extract_urls findall (strip (single_input ins))) w Hsync)
        as (? & ? & ? & ? & ?).
      do 5 (split; [done|]). by intros [? [=]].
  - unfold add_batch. destruct (String.eqb _ ""); simpl.
    + destruct Hsame as (? & ? & ? & ? & ?). by repeat (split; [done|]).
    + destruct (foldl _ _ _) as [|l links] eqn:Hl; simpl.
      * destruct Hsame as (? & ? & ? & ? & ?). by repeat (split; [done|]).
      * destruct (add_links_grows (l :: links) w Hsync) as (? & ? & ? & ? & ?).
        do 5 (split; [done|]). by intros [? [=]].
  - unfold extract_links. destruct (_extract_urls _ _) as [|l links] eqn:Hl; simpl.
    + destruct Hsame as (? & ? & ? & ? & ?). by repeat (split; [done|]).
    + destruct (add_links_grows (l :: links) w Hsync) as (? & ? & ? & ? & ?).
      do 5 (split; [done|]). by intros [? [=]].
Qed.

Lemma add_actions_safe_witness :
  in_sync (add_single (fun s => s) (fun _ => [other_url])
             {| single_input := other_url; batch_input := ""; rich_input := "" |}
             (win demo)).1.2.
Proof.
  pose proof (add_actions_safe (fun s => s) (fun s => [s]) (fun _ => [other_url])
                {| single_input := other_url; batch_input := ""; rich_input := "" |}
                (win demo) demo_in_sync) as H.
  apply Forall_cons in H as [(H & _) _]. exact H.
Defined.

Lemma dict_fromkeys_nil (urls : list string) : dict_fromkeys urls = [] ↔ urls = [].
Proof.
  split; [|by intros ->]. intros Hnil.
  destruct urls as [|u urls]; [done|]. exfalso.
  destruct (extract_urls_unique (fun _ => u :: urls) "") as [_ Hel].
  unfold _extract_urls in Hel. rewrite Hnil in Hel.
  apply (not_elem_of_nil u), Hel. left.
Qed.

(** X21.  When the add actions answer with a box.  [add_single] does so
    exactly when the stripped line is empty, [extract_links] exactly
    when the pattern matches nowhere in the text.  Unlike its two
    siblings [add_single] has no test for 'nothing found': on a line
    without a link it shows no box, clears the input and only logs that
    0 links were added. *)
Theorem add_actions_feedback (strip : string → string) (findall : string → list string)
    (ins : Inputs) (w : MainWindow) :
  (is_Some (add_single strip findall ins w).2 ↔ strip (single_input ins) = "")
  ∧ (is_Some (extract_links findall ins w).2 ↔ findall (rich_input ins) = [])
  ∧ (strip (single_input ins) ≠ "" →
     findall (strip (single_input ins)) = [] →
     add_single strip findall ins w
     = ({| single_input := ""; batch_input := batch_input ins; rich_input := rich_input ins |},
        _append_console "Добавлено ссылок: 0" w,
        None)).
Proof.
  split; [|split].
  - unfold add_single. destruct (String.eqb_spec (strip (single_input ins)) "") as [->|Hne]; simpl.
    + split; [done|]. intros _. by eexists.
    + split; [by intros [? [=]]|done].
  - unfold extract_links. rewrite <- (dict_fromkeys_nil (findall (rich_input ins))).
    unfold _extract_urls. destruct (dict_fromkeys _) as [|l links]; simpl.
    + split; [done|]. intros _. by eexists.
    + split; [by intros [? [=]]|done].
  - intros Hne Hnone. unfold add_single.
    destruct (String.eqb_spec (strip (single_input ins)) "") as [E|_]; [done|].
    unfold _extract_urls. rewrite Hnone. reflexivity.
Qed.

Lemma add_actions_feedback_witness :
  add_single (fun s => s) (fun _ => [])
    {| single_input := "hello"; batch_input := ""; rich_input := "" |} (win demo)
  = ({| single_input := ""; batch_input := ""; rich_input := "" |},
     _append_console "Добавлено ссылок: 0" (win demo),
     None).
Proof.
  apply (proj2 (proj2 (add_actions_feedback (fun s => s) (fun _ => [])
                         {| single_input := "hello"; batch_input := ""; rich_input := "" |}
                         (win demo)))); [discriminate|reflexivity].
Defined.

(** ** Signals and the controls *)

Lemma demo_emitting_reachable : reachable exact_percent demo_emitting.
Proof.
  destruct demo_started_reachable as (dir & disk & available & ideal & Hideal & Hrun).
  exists dir, disk, available, ideal. split; [done|].
  eapply rtc_r; [exact Hrun|]. exists (WorkerEmits 0 0 fetch_failing 0).
  vm_compute. reflexivity.
Qed.

(** X22.  In every reachable state no [enable_ui] signal is pending:
    nothing ever emits it, so [_set_ui_enabled] never runs.  And the
    delivery of a pending signal changes none of the controls: the
    three buttons, the spin box, the download directory, the url list,
    [running_count] and the pool the window refers to are as before. *)
Theorem delivery_leaves_controls (float_percent : Z → Z → Z) (p p' : Process) :
  reachable float_percent p →
  exec float_percent Deliver p = Some p' →
  (∀ b, enable_ui b ∉ events p)
  ∧ start_btn (win p') = start_btn (win p)
  ∧ stop_btn (win p') = stop_btn (win p)
  ∧ install_btn (win p') = install_btn (win p)
  ∧ threads_spin (win p') = threads_spin (win p)
  ∧ download_dir (win p') = download_dir (win p)
  ∧ queued_urls (win p') = queued_urls (win p)
  ∧ running_count (win p') = running_count (win p)
  ∧ threadpool (win p') = threadpool (win p).
Proof.
  intros Hreach Hexec.
  destruct (reachable_invariant _ _ Hreach) as (_ & _ & _ & _ & _ & Hev).
  split.
  - intros b Hin. apply (Forall_forall pending_signal (events p)) with (x := enable_ui b) in Hev;
      [|done].
    by destruct Hev as [u Hu].
  - simpl in Hexec. destruct (events p) as [|s rest]; [done|]. injection Hexec as <-.
    apply Forall_cons in Hev as [Hs _].
    by destruct (deliver_shape s (set_events rest p) Hs) as (g & d & c & q & ->).
Qed.

Lemma delivery_leaves_controls_witness :
  install_btn (win demo_delivered) = install_btn (win demo_emitting)
  ∧ queued_urls (win demo_delivered) = queued_urls (win demo_emitting).
Proof.
  pose proof (delivery_leaves_controls exact_percent demo_emitting demo_delivered
                demo_emitting_reachable ltac:(vm_compute; reflexivity))
    as (_ & _ & _ & H3 & _ & _ & H6 & _).
  split; [exact H3|exact H6].
Defined.

(** ** Stop followed by Start *)


